(** * ml-api-inference-internal.c: tensor descriptor bridge, model
      validation and element availability

    A shallow embedding of [c/src/ml-api-inference-internal.c] of the
    NNStreamer ML API, with the statements of its specification proved
    against it.

    Conventions of the embedding.
    - A pointer that the C code tests against [NULL] is an [option]
      ([nullable]); [None] is the null pointer.
    - A C fragment whose behaviour is undefined (an array indexed outside its
      bounds, a null pointer handed to [strrchr]) evaluates to [None] in the
      outer [option] of the function's result, so every "returns" theorem
      below also says that the C code stays inside defined behaviour.
    - [guint] counters are [nat]; dimension values ([uint32_t]) and the type
      tags read out of the descriptors are [Z].
    - The locking macros ([G_LOCK_UNLESS_NOLOCK]) are not modelled. *)

From Stdlib Require Import ZArith String Ascii List Lia.
From stdpp Require Import base option list strings.

Local Open Scope Z_scope.

Abbreviation nullable := option (only parsing).
Abbreviation NULL := None (only parsing).

(** ** C control structures *)

(** [for (j = from; j < from + count; j++) body], threading the state the
    body updates. *)
Fixpoint for_range {St : Type} (from count : nat)
    (body : nat → St → option St) (s : St) : option St :=
  match count with
  | O => Some s
  | S count' => s' ← body from s; for_range (S from) count' body s'
  end.

(** Store into a C array: defined only inside the array. *)
Definition array_set {A : Type} (a : list A) (i : nat) (v : A) : option (list A) :=
  if decide (i < length a)%nat then Some (<[i := v]> a) else None.

(** [g_strdup]: a fresh copy of the characters. *)
Definition g_strdup (s : string) : string := s.

(** ** Constants of the headers

    [ml-api-common.h] and NNStreamer's [tensor_typedef.h] are not part of the
    sources at hand; the limits and the enumerators the code names are
    therefore parameters.  The only thing assumed about them is
    [headers_wf]. *)
Class headers := {
  ML_TENSOR_RANK_LIMIT : nat;
  ML_TENSOR_SIZE_LIMIT : nat;
  NNS_TENSOR_RANK_LIMIT : nat;
  NNS_TENSOR_SIZE_LIMIT : nat;
  (* ml_tensor_type_e *)
  ML_TENSOR_TYPE_INT32 : Z;
  ML_TENSOR_TYPE_UINT32 : Z;
  ML_TENSOR_TYPE_INT16 : Z;
  ML_TENSOR_TYPE_UINT16 : Z;
  ML_TENSOR_TYPE_INT8 : Z;
  ML_TENSOR_TYPE_UINT8 : Z;
  ML_TENSOR_TYPE_FLOAT64 : Z;
  ML_TENSOR_TYPE_FLOAT32 : Z;
  ML_TENSOR_TYPE_INT64 : Z;
  ML_TENSOR_TYPE_UINT64 : Z;
  ML_TENSOR_TYPE_UNKNOWN : Z;
  (* tensor_type *)
  _NNS_INT32 : Z;
  _NNS_UINT32 : Z;
  _NNS_INT16 : Z;
  _NNS_UINT16 : Z;
  _NNS_INT8 : Z;
  _NNS_UINT8 : Z;
  _NNS_FLOAT64 : Z;
  _NNS_FLOAT32 : Z;
  _NNS_INT64 : Z;
  _NNS_UINT64 : Z;
  _NNS_END : Z
}.

Module Tensors.
Section with_headers.
Context {hd : headers}.

(** The ten numeric tags of each enumeration, in the order of the [switch]
    statements, and the enumerations with their sentinel. *)
Definition ml_known_types : list Z :=
  [ML_TENSOR_TYPE_INT32; ML_TENSOR_TYPE_UINT32; ML_TENSOR_TYPE_INT16;
   ML_TENSOR_TYPE_UINT16; ML_TENSOR_TYPE_INT8; ML_TENSOR_TYPE_UINT8;
   ML_TENSOR_TYPE_FLOAT64; ML_TENSOR_TYPE_FLOAT32; ML_TENSOR_TYPE_INT64;
   ML_TENSOR_TYPE_UINT64].

Definition nns_known_types : list Z :=
  [_NNS_INT32; _NNS_UINT32; _NNS_INT16; _NNS_UINT16; _NNS_INT8; _NNS_UINT8;
   _NNS_FLOAT64; _NNS_FLOAT32; _NNS_INT64; _NNS_UINT64].

Definition ml_tensor_type_e : list Z := ml_known_types ++ [ML_TENSOR_TYPE_UNKNOWN].
Definition tensor_type : list Z := nns_known_types ++ [_NNS_END].

(** What a C compiler enforces or the enumerations provide: the [case]
    labels of a [switch] are pairwise distinct, and the sentinel is not one
    of the numeric tags. *)
Definition headers_wf : Prop :=
  NoDup ml_tensor_type_e ∧ NoDup tensor_type.

(** ** Data model *)

(** [ml_tensor_info_s]: [char *name], [ml_tensor_type_e type],
    [ml_tensor_dimension dimension] (an array of [ML_TENSOR_RANK_LIMIT]
    unsigned ints). *)
Record ml_tensor_info_s := {
  ml_name : nullable string;
  ml_type : Z;
  ml_dimension : list Z
}.

(** [ml_tensors_info_s]: [num_tensors] and [info[ML_TENSOR_SIZE_LIMIT]]. *)
Record ml_tensors_info_s := {
  ml_num_tensors : nat;
  ml_tensor_info : list ml_tensor_info_s
}.

(** [GstTensorInfo]: [name], [type], [dimension[NNS_TENSOR_RANK_LIMIT]]. *)
Record GstTensorInfo := {
  gst_name : nullable string;
  gst_type : Z;
  gst_dimension : list Z
}.

(** [GstTensorsInfo]: [num_tensors] and [info[NNS_TENSOR_SIZE_LIMIT]]. *)
Record GstTensorsInfo := {
  gst_num_tensors : nat;
  gst_tensor_info : list GstTensorInfo
}.

(** The array lengths the C types fix, and a count that stays inside the
    array of descriptors. *)
Definition ml_tensors_info_wf (x : ml_tensors_info_s) : Prop :=
  length (ml_tensor_info x) = ML_TENSOR_SIZE_LIMIT ∧
  (ml_num_tensors x ≤ ML_TENSOR_SIZE_LIMIT)%nat ∧
  Forall (λ t, length (ml_dimension t) = ML_TENSOR_RANK_LIMIT) (ml_tensor_info x).

Definition gst_tensors_info_wf (g : GstTensorsInfo) : Prop :=
  length (gst_tensor_info g) = NNS_TENSOR_SIZE_LIMIT ∧
  (gst_num_tensors g ≤ NNS_TENSOR_SIZE_LIMIT)%nat ∧
  Forall (λ t, length (gst_dimension t) = NNS_TENSOR_RANK_LIMIT) (gst_tensor_info g).

(** Modelled from the spec: [_ml_tensors_info_initialize] (ml-api-common.c,
    not in the sources at hand) resets the destination set: no tensors, and
    every slot without a name, with the [Unknown] tag and zeroed
    dimensions. *)
Definition _ml_tensors_info_initialize : ml_tensors_info_s :=
  {| ml_num_tensors := 0;
     ml_tensor_info := replicate ML_TENSOR_SIZE_LIMIT
       {| ml_name := NULL; ml_type := ML_TENSOR_TYPE_UNKNOWN;
          ml_dimension := replicate ML_TENSOR_RANK_LIMIT 0 |} |}.

(** Modelled from the spec: [gst_tensors_info_init] (NNStreamer, not in the
    sources at hand) resets the destination set in the same way, with the
    [End] sentinel as tag. *)
Definition gst_tensors_info_init : GstTensorsInfo :=
  {| gst_num_tensors := 0;
     gst_tensor_info := replicate NNS_TENSOR_SIZE_LIMIT
       {| gst_name := NULL; gst_type := _NNS_END;
          gst_dimension := replicate NNS_TENSOR_RANK_LIMIT 0 |} |}.

(** [MIN (ML_TENSOR_RANK_LIMIT, NNS_TENSOR_RANK_LIMIT)] *)
Definition max_dim : nat := Nat.min ML_TENSOR_RANK_LIMIT NNS_TENSOR_RANK_LIMIT.

(** ** [_ml_tensors_info_copy_from_gst] *)

(** The [switch] on [gst_info->info[i].type], lines 105-139. *)
Definition copy_from_gst_type (t : Z) : Z :=
  if t =? _NNS_INT32 then ML_TENSOR_TYPE_INT32
  else if t =? _NNS_UINT32 then ML_TENSOR_TYPE_UINT32
  else if t =? _NNS_INT16 then ML_TENSOR_TYPE_INT16
  else if t =? _NNS_UINT16 then ML_TENSOR_TYPE_UINT16
  else if t =? _NNS_INT8 then ML_TENSOR_TYPE_INT8
  else if t =? _NNS_UINT8 then ML_TENSOR_TYPE_UINT8
  else if t =? _NNS_FLOAT64 then ML_TENSOR_TYPE_FLOAT64
  else if t =? _NNS_FLOAT32 then ML_TENSOR_TYPE_FLOAT32
  else if t =? _NNS_INT64 then ML_TENSOR_TYPE_INT64
  else if t =? _NNS_UINT64 then ML_TENSOR_TYPE_UINT64
  else ML_TENSOR_TYPE_UNKNOWN.

(** The two dimension loops, lines 142-148 and 217-223: copy the slots below
    [max_dim], then store [1] up to the destination's own limit. *)
Definition copy_dimension (limit : nat) (src dst : list Z) : option (list Z) :=
  dst ← for_range 0 max_dim
           (λ j dst, v ← src !! j; array_set dst j v) dst;
  for_range max_dim (limit - max_dim)
           (λ j dst, array_set dst j 1) dst.

(** One turn of the loop over the tensors, lines 98-149. *)
Definition copy_from_gst_tensor (gst_info : GstTensorsInfo) (i : nat)
    (ml_info : ml_tensors_info_s) : option ml_tensors_info_s :=
  src ← gst_info.(gst_tensor_info) !! i;
  dst ← ml_info.(ml_tensor_info) !! i;
  let name := match gst_name src with
              | Some s => Some (g_strdup s)
              | NULL => ml_name dst
              end in
  let type := copy_from_gst_type (gst_type src) in
  dimension ← copy_dimension ML_TENSOR_RANK_LIMIT (gst_dimension src) (ml_dimension dst);
  info ← array_set ml_info.(ml_tensor_info) i
           {| ml_name := name; ml_type := type; ml_dimension := dimension |};
  Some {| ml_num_tensors := ml_num_tensors ml_info; ml_tensor_info := info |}.

(** The function takes the destination (whose previous content it discards)
    and the source; it yields the destination as the call leaves it. *)
Definition _ml_tensors_info_copy_from_gst (ml_info : nullable ml_tensors_info_s)
    (gst_info : nullable GstTensorsInfo) : option (nullable ml_tensors_info_s) :=
  match ml_info, gst_info with
  | Some _, Some gst_info =>
      let ml_info := _ml_tensors_info_initialize in
      let ml_info := {| ml_num_tensors := gst_num_tensors gst_info;
                        ml_tensor_info := ml_info.(ml_tensor_info) |} in
      Some <$> for_range 0 (gst_num_tensors gst_info)
                 (copy_from_gst_tensor gst_info) ml_info
  | _, _ => Some ml_info
  end.

(** ** [_ml_tensors_info_copy_from_ml] *)

(** The [switch] on [ml_info->info[i].type], lines 180-214. *)
Definition copy_from_ml_type (t : Z) : Z :=
  if t =? ML_TENSOR_TYPE_INT32 then _NNS_INT32
  else if t =? ML_TENSOR_TYPE_UINT32 then _NNS_UINT32
  else if t =? ML_TENSOR_TYPE_INT16 then _NNS_INT16
  else if t =? ML_TENSOR_TYPE_UINT16 then _NNS_UINT16
  else if t =? ML_TENSOR_TYPE_INT8 then _NNS_INT8
  else if t =? ML_TENSOR_TYPE_UINT8 then _NNS_UINT8
  else if t =? ML_TENSOR_TYPE_FLOAT64 then _NNS_FLOAT64
  else if t =? ML_TENSOR_TYPE_FLOAT32 then _NNS_FLOAT32
  else if t =? ML_TENSOR_TYPE_INT64 then _NNS_INT64
  else if t =? ML_TENSOR_TYPE_UINT64 then _NNS_UINT64
  else _NNS_END.

(** One turn of the loop over the tensors, lines 173-224. *)
Definition copy_from_ml_tensor (ml_info : ml_tensors_info_s) (i : nat)
    (gst_info : GstTensorsInfo) : option GstTensorsInfo :=
  src ← ml_info.(ml_tensor_info) !! i;
  dst ← gst_info.(gst_tensor_info) !! i;
  let name := match ml_name src with
              | Some s => Some (g_strdup s)
              | NULL => gst_name dst
              end in
  let type := copy_from_ml_type (ml_type src) in
  dimension ← copy_dimension NNS_TENSOR_RANK_LIMIT (ml_dimension src) (gst_dimension dst);
  info ← array_set gst_info.(gst_tensor_info) i
           {| gst_name := name; gst_type := type; gst_dimension := dimension |};
  Some {| gst_num_tensors := gst_num_tensors gst_info; gst_tensor_info := info |}.

Definition _ml_tensors_info_copy_from_ml (gst_info : nullable GstTensorsInfo)
    (ml_info : nullable ml_tensors_info_s) : option (nullable GstTensorsInfo) :=
  match gst_info, ml_info with
  | Some _, Some ml_info =>
      let gst_info := gst_tensors_info_init in
      let gst_info := {| gst_num_tensors := ml_num_tensors ml_info;
                         gst_tensor_info := gst_info.(gst_tensor_info) |} in
      Some <$> for_range 0 (ml_num_tensors ml_info)
                 (copy_from_ml_tensor ml_info) gst_info
  | _, _ => Some gst_info
  end.

(** What the code leaves in a slot it has converted, as a function of the
    source slot; [copy_from_gst_spec] and [copy_from_ml_spec] below prove
    that the loops compute exactly this. *)
Definition copy_from_gst_slot (src : GstTensorInfo) : ml_tensor_info_s :=
  {| ml_name := gst_name src;
     ml_type := copy_from_gst_type (gst_type src);
     ml_dimension := take max_dim (gst_dimension src)
                     ++ replicate (ML_TENSOR_RANK_LIMIT - max_dim) 1 |}.

Definition copy_from_ml_slot (src : ml_tensor_info_s) : GstTensorInfo :=
  {| gst_name := ml_name src;
     gst_type := copy_from_ml_type (ml_type src);
     gst_dimension := take max_dim (ml_dimension src)
                      ++ replicate (NNS_TENSOR_RANK_LIMIT - max_dim) 1 |}.

(** *** Vocabulary of the statements *)

(** A dimension array has rank at most [r] when every slot from index [r] on
    holds the padding value [1]. *)
Definition rank_at_most (r : nat) (dimension : list Z) : Prop :=
  ∀ j, (r ≤ j < length dimension)%nat → dimension !! j = Some 1.

(** The padding rule for a destination array of [limit] slots. *)
Definition dimension_padded (limit : nat) (src dst : list Z) : Prop :=
  length dst = limit ∧
  (∀ j, (j < max_dim)%nat → dst !! j = src !! j) ∧
  (∀ j, (max_dim ≤ j < limit)%nat → dst !! j = Some 1).

End with_headers.

(** Concrete headers: the enumerators numbered from [0] as the headers
    declare them, for given limits. *)
Definition example_headers (ml_rank nns_rank size : nat) : headers :=
  {| ML_TENSOR_RANK_LIMIT := ml_rank; ML_TENSOR_SIZE_LIMIT := size;
     NNS_TENSOR_RANK_LIMIT := nns_rank; NNS_TENSOR_SIZE_LIMIT := size;
     ML_TENSOR_TYPE_INT32 := 0; ML_TENSOR_TYPE_UINT32 := 1;
     ML_TENSOR_TYPE_INT16 := 2; ML_TENSOR_TYPE_UINT16 := 3;
     ML_TENSOR_TYPE_INT8 := 4; ML_TENSOR_TYPE_UINT8 := 5;
     ML_TENSOR_TYPE_FLOAT64 := 6; ML_TENSOR_TYPE_FLOAT32 := 7;
     ML_TENSOR_TYPE_INT64 := 8; ML_TENSOR_TYPE_UINT64 := 9;
     ML_TENSOR_TYPE_UNKNOWN := 10;
     _NNS_INT32 := 0; _NNS_UINT32 := 1; _NNS_INT16 := 2; _NNS_UINT16 := 3;
     _NNS_INT8 := 4; _NNS_UINT8 := 5; _NNS_FLOAT64 := 6; _NNS_FLOAT32 := 7;
     _NNS_INT64 := 8; _NNS_UINT64 := 9; _NNS_END := 10 |}.

(** Four dimensions and sixteen tensors on both sides, as when the file was
    written. *)
Definition headers_4_4 : headers := example_headers 4 4 16.

(** A wider and a narrower internal representation, with arrays of three
    descriptors, to see the padding at work in either direction. *)
Definition headers_4_8 : headers := example_headers 4 8 3.
Definition headers_4_2 : headers := example_headers 4 2 3.

(** Descriptor sets to run the conversions on: two tensors in arrays of
    three, the last slot holding stale values. *)
Definition example_ml : ml_tensors_info_s :=
  {| ml_num_tensors := 2;
     ml_tensor_info :=
       [ {| ml_name := Some "input"%string; ml_type := 7; ml_dimension := [3; 224; 1; 1] |};
         {| ml_name := NULL; ml_type := 10; ml_dimension := [10; 1; 1; 1] |};
         {| ml_name := Some "stale"%string; ml_type := 42; ml_dimension := [0; 0; 0; 0] |} ] |}.

Definition example_gst : GstTensorsInfo :=
  {| gst_num_tensors := 2;
     gst_tensor_info :=
       [ {| gst_name := Some "output"%string; gst_type := 5;
            gst_dimension := [3; 224; 224; 2; 5; 6; 7; 8] |};
         {| gst_name := NULL; gst_type := 11;
            gst_dimension := [1001; 1; 1; 1; 1; 1; 1; 1] |};
         {| gst_name := NULL; gst_type := 10;
            gst_dimension := [0; 0; 0; 0; 0; 0; 0; 0] |} ] |}.

(** An internal set of rank three in arrays of eight dimensions. *)
Definition example_gst_padded : GstTensorsInfo :=
  {| gst_num_tensors := 2;
     gst_tensor_info :=
       [ {| gst_name := Some "output"%string; gst_type := 5;
            gst_dimension := [3; 224; 224; 1; 1; 1; 1; 1] |};
         {| gst_name := NULL; gst_type := 10;
            gst_dimension := [1001; 1; 1; 1; 1; 1; 1; 1] |};
         {| gst_name := Some "stale"%string; gst_type := 42;
            gst_dimension := [9; 9; 9; 9; 9; 9; 9; 9] |} ] |}.

End Tensors.

(** ** GLib and libc string functions used by the code *)

Module CStr.

(** [g_ascii_tolower] *)
Definition g_ascii_tolower (c : ascii) : ascii :=
  let n := nat_of_ascii c in
  if (65 <=? n)%nat && (n <=? 90)%nat then ascii_of_nat (n + 32) else c.

(** [g_ascii_strdown (str, -1)] *)
Fixpoint g_ascii_strdown (s : string) : string :=
  match s with
  | EmptyString => EmptyString
  | String c s' => String (g_ascii_tolower c) (g_ascii_strdown s')
  end.

(** [g_ascii_strcasecmp]: the difference of the first two characters that
    differ once lowered, [0] when there is none. *)
Fixpoint g_ascii_strcasecmp (s1 s2 : string) : Z :=
  match s1, s2 with
  | String c1 s1', String c2 s2' =>
      let c1 := Z.of_nat (nat_of_ascii (g_ascii_tolower c1)) in
      let c2 := Z.of_nat (nat_of_ascii (g_ascii_tolower c2)) in
      if c1 =? c2 then g_ascii_strcasecmp s1' s2' else c1 - c2
  | String c1 _, EmptyString => Z.of_nat (nat_of_ascii c1)
  | EmptyString, String c2 _ => - Z.of_nat (nat_of_ascii c2)
  | EmptyString, EmptyString => 0
  end.

(** [strrchr (s, c)]: the suffix of [s] that starts at the last [c]. *)
Fixpoint strrchr (s : string) (c : ascii) : nullable string :=
  match s with
  | EmptyString => NULL
  | String a s' =>
      match strrchr s' c with
      | Some pos => Some pos
      | NULL => if Ascii.eqb a c then Some s else NULL
      end
  end.

(** [g_str_equal] *)
Definition g_str_equal (s1 s2 : string) : bool := String.eqb s1 s2.

(** [g_str_has_prefix (str, prefix)] *)
Definition g_str_has_prefix (str prefix : string) : bool := String.prefix prefix str.

(** [g_strsplit_set (string, delimiters, -1)]: the tokens between the
    delimiter characters, empty tokens included; the empty string has no
    token. *)
Fixpoint g_strsplit_set_from (s delimiters token : string) : list string :=
  match s with
  | EmptyString => [token]
  | String c s' =>
      if existsb (Ascii.eqb c) (list_ascii_of_string delimiters)
      then token :: g_strsplit_set_from s' delimiters EmptyString
      else g_strsplit_set_from s' delimiters (String.append token (String c EmptyString))
  end.

Definition g_strsplit_set (s delimiters : string) : list string :=
  match s with
  | EmptyString => []
  | _ => g_strsplit_set_from s delimiters EmptyString
  end.

(** A [NULL]-terminated vector of strings ([gchar **]). *)
Definition strv (l : list string) : list (nullable string) := (Some <$> l) ++ [NULL].

(** Modelled from the spec: [find_key_strv] (NNStreamer's plugin API, not in
    the sources at hand) is the lookup of [key] in a [NULL]-terminated
    vector; the spec has it compare case-sensitively.  It yields the index
    of the first entry equal to [key], [-1] when there is none. *)
Fixpoint find_key_strv_from (cursor : Z) (v : list (nullable string)) (key : string) : Z :=
  match v with
  | Some s :: v' =>
      if String.eqb s key then cursor else find_key_strv_from (cursor + 1) v' key
  | _ => -1
  end.

Definition find_key_strv (v : list (nullable string)) (key : string) : Z :=
  find_key_strv_from 0 v key.

(** A C string holds no NUL character. *)
Definition c_string (s : string) : Prop :=
  Forall (λ c, c ≠ "000"%char) (list_ascii_of_string s).

End CStr.

(** ** Status codes and the log *)

(** The values of [ml_error_e] the file returns. *)
Inductive ml_error_e :=
  | ML_ERROR_NONE
  | ML_ERROR_INVALID_PARAMETER
  | ML_ERROR_NOT_SUPPORTED
  | ML_ERROR_STREAMS_PIPE.

#[global] Instance ml_error_e_eq_dec : EqDecision ml_error_e.
Proof. solve_decision. Defined.

Inductive log_level := LOGE | LOGW | LOGI.

(** A line handed to [_ml_loge], [_ml_logw] or [_ml_logi]: the format string
    and its [%s] arguments ([GST_STR_NULL] printing a null pointer). *)
Record log_entry := {
  log_at : log_level;
  log_format : string;
  log_args : list string
}.

Definition GST_STR_NULL (s : nullable string) : string :=
  match s with Some s => s | NULL => "(NULL)"%string end.

Definition _ml_loge (format : string) (args : list string) : list log_entry :=
  [{| log_at := LOGE; log_format := format; log_args := args |}].
Definition _ml_logw (format : string) (args : list string) : list log_entry :=
  [{| log_at := LOGW; log_format := format; log_args := args |}].
Definition _ml_logi (format : string) (args : list string) : list log_entry :=
  [{| log_at := LOGI; log_format := format; log_args := args |}].

(** ** Framework registry *)

Module Registry.
Import CStr.
Local Open Scope string_scope.
Local Open Scope Z_scope.
Local Open Scope list_scope.

(** [ml_nnfw_type_e], every enumerator the file names. *)
Inductive ml_nnfw_type_e :=
  | ML_NNFW_TYPE_ANY
  | ML_NNFW_TYPE_CUSTOM_FILTER
  | ML_NNFW_TYPE_TENSORFLOW_LITE
  | ML_NNFW_TYPE_TENSORFLOW
  | ML_NNFW_TYPE_NNFW
  | ML_NNFW_TYPE_MVNC
  | ML_NNFW_TYPE_OPENVINO
  | ML_NNFW_TYPE_VIVANTE
  | ML_NNFW_TYPE_EDGE_TPU
  | ML_NNFW_TYPE_ARMNN
  | ML_NNFW_TYPE_SNPE
  | ML_NNFW_TYPE_PYTORCH
  | ML_NNFW_TYPE_NNTR_INF
  | ML_NNFW_TYPE_VD_AIFW
  | ML_NNFW_TYPE_TRIX_ENGINE
  | ML_NNFW_TYPE_SNAP.

#[global] Instance ml_nnfw_type_e_eq_dec : EqDecision ml_nnfw_type_e.
Proof. solve_decision. Defined.

(** The designated initializers of [ml_nnfw_subplugin_name], lines 28-42, in
    the order written. *)
Definition ml_nnfw_subplugin_name_init : list (ml_nnfw_type_e * string) :=
  [ (ML_NNFW_TYPE_ANY, "any");
    (ML_NNFW_TYPE_CUSTOM_FILTER, "custom");
    (ML_NNFW_TYPE_TENSORFLOW_LITE, "tensorflow-lite");
    (ML_NNFW_TYPE_TENSORFLOW, "tensorflow");
    (ML_NNFW_TYPE_NNFW, "nnfw");
    (ML_NNFW_TYPE_MVNC, "movidius-ncsdk2");
    (ML_NNFW_TYPE_OPENVINO, "openvino");
    (ML_NNFW_TYPE_VIVANTE, "vivante");
    (ML_NNFW_TYPE_EDGE_TPU, "edgetpu");
    (ML_NNFW_TYPE_ARMNN, "armnn");
    (ML_NNFW_TYPE_SNPE, "snpe");
    (ML_NNFW_TYPE_PYTORCH, "pytorch");
    (ML_NNFW_TYPE_NNTR_INF, "nntrainer");
    (ML_NNFW_TYPE_VD_AIFW, "vd_aifw");
    (ML_NNFW_TYPE_TRIX_ENGINE, "trix-engine") ].

(** Modelled from the spec: the values of the enumerators are declared in
    [ml-api-inference.h], which is not in the sources at hand.  As the data
    model lists the tags, the designators number the slots of the table from
    [0] in the order written, so that the closing [NULL] follows the entry
    of [ML_NNFW_TYPE_TRIX_ENGINE]; [ML_NNFW_TYPE_SNAP] lies outside the
    table.  The cast [(ml_nnfw_type_e) idx] is only applied to an index that
    [find_key_strv] has found in the table; what the definition yields
    elsewhere is immaterial. *)
Definition ml_nnfw_type_e_of_int (idx : Z) : ml_nnfw_type_e :=
  if idx <? 0 then ML_NNFW_TYPE_SNAP
  else nth (Z.to_nat idx) (fst <$> ml_nnfw_subplugin_name_init) ML_NNFW_TYPE_SNAP.

(** The table itself, a [NULL]-terminated vector. *)
Definition ml_nnfw_subplugin_name : list (nullable string) :=
  strv (snd <$> ml_nnfw_subplugin_name_init).

(** [_ml_get_nnfw_subplugin_name], lines 49-57. *)
Definition _ml_get_nnfw_subplugin_name (nnfw : ml_nnfw_type_e) : nullable string :=
  if decide (nnfw = ML_NNFW_TYPE_SNAP) then Some "snap"
  else snd <$> List.find (λ e, bool_decide (fst e = nnfw)) ml_nnfw_subplugin_name_init.

(** [_ml_get_nnfw_type_by_subplugin_name], lines 283-304: the id and the
    lines it logs. *)
Definition _ml_get_nnfw_type_by_subplugin_name (name : nullable string)
    : ml_nnfw_type_e * list log_entry :=
  match name with
  | NULL => (ML_NNFW_TYPE_ANY, [])
  | Some name =>
      let idx := find_key_strv ml_nnfw_subplugin_name name in
      if idx <? 0 then
        if g_ascii_strcasecmp name "snap" =? 0
        then (ML_NNFW_TYPE_SNAP, [])
        else (ML_NNFW_TYPE_ANY,
              _ml_logw "Cannot find nnfw, %s is invalid name." [GST_STR_NULL (Some name)])
      else (ml_nnfw_type_e_of_int idx, [])
  end.

End Registry.

(** ** Model validation *)

Module Validator.
Import CStr Registry.
Local Open Scope string_scope.
Local Open Scope Z_scope.
Local Open Scope list_scope.

(** [ml_nnfw_hw_e], the enumerators the file names. *)
Inductive ml_nnfw_hw_e :=
  | ML_NNFW_HW_ANY
  | ML_NNFW_HW_AUTO
  | ML_NNFW_HW_CPU
  | ML_NNFW_HW_CPU_NEON
  | ML_NNFW_HW_CPU_SIMD
  | ML_NNFW_HW_GPU
  | ML_NNFW_HW_NPU
  | ML_NNFW_HW_NPU_MOVIDIUS
  | ML_NNFW_HW_NPU_EDGE_TPU
  | ML_NNFW_HW_NPU_VIVANTE
  | ML_NNFW_HW_NPU_SLSI
  | ML_NNFW_HW_NPU_SR.

Inductive GFileTest := G_FILE_TEST_IS_REGULAR | G_FILE_TEST_IS_DIR.

(** What the validation asks of its surroundings: the file system seen
    through [g_file_test], NNStreamer's detection of a framework from the
    paths, the availability query of ml-api-inference-single.c, and whether
    the file is compiled for Android. *)
Class environment := {
  file_test : string → GFileTest → bool;
  gst_tensor_filter_detect_framework : list (nullable string) → bool → nullable string;
  _ml_nnfw_is_available : ml_nnfw_type_e → ml_nnfw_hw_e → bool;
  defined__ANDROID__ : bool
}.

Section with_environment.
Context {env : environment}.

(** [g_file_test]; GLib answers [FALSE] for a null file name. *)
Definition g_file_test (filename : nullable string) (test : GFileTest) : bool :=
  match filename with
  | Some filename => file_test filename test
  | NULL => false
  end.

(** The loop of lines 269-275. *)
Fixpoint validate_regular_files (model : list (nullable string))
    : ml_error_e * list log_entry :=
  match model with
  | [] => (ML_ERROR_NONE, [])
  | m :: model' =>
      if negb (bool_decide (is_Some m)) || negb (g_file_test m G_FILE_TEST_IS_REGULAR)
      then (ML_ERROR_INVALID_PARAMETER,
            _ml_loge "The given param, model path [%s] is invalid or not given."
                     [GST_STR_NULL m])
      else validate_regular_files model'
  end.

(** [__ml_validate_model_file], lines 253-278.  The array [model] comes with
    its length [num_models]; the result is the status and [*is_dir]. *)
Definition __ml_validate_model_file (model : nullable (list (nullable string)))
    (is_dir : bool) : ml_error_e * bool * list log_entry :=
  match model with
  | Some ((model0 :: _) as model) =>
      if g_file_test model0 G_FILE_TEST_IS_DIR then (ML_ERROR_NONE, true, [])
      else let '(status, log) := validate_regular_files model in (status, is_dir, log)
  | _ =>
      (ML_ERROR_INVALID_PARAMETER, is_dir,
       _ml_loge "The required param, model is not provided (null)." [])
  end.

(** The loop of lines 366-374: the lowered extensions, or the path that has
    none. *)
Fixpoint validate_file_ext (model : list (nullable string)) (file_ext : list string)
    : option (list string + string) :=
  match model with
  | [] => Some (inl file_ext)
  | m :: model' =>
      m ← m;
      match strrchr m "."%char with
      | NULL => Some (inr m)
      | Some pos => validate_file_ext model' (file_ext ++ [g_ascii_strdown pos])
      end
  end.

(** The [switch] of lines 377-416: the status it leaves. *)
Definition validate_extension (nnfw : ml_nnfw_type_e) (file_ext : list string)
    : option (ml_error_e * list log_entry) :=
  match nnfw with
  | ML_NNFW_TYPE_NNFW => Some (ML_ERROR_NONE, [])
  | ML_NNFW_TYPE_MVNC | ML_NNFW_TYPE_OPENVINO | ML_NNFW_TYPE_EDGE_TPU =>
      Some (ML_ERROR_NOT_SUPPORTED, _ml_loge "Given NNFW is not supported yet." [])
  | ML_NNFW_TYPE_VD_AIFW =>
      ext0 ← file_ext !! 0%nat;
      if negb (g_str_equal ext0 ".nb") &&
         negb (g_str_equal ext0 ".ncp") &&
         negb (g_str_equal ext0 ".bin")
      then Some (ML_ERROR_INVALID_PARAMETER, [])
      else Some (ML_ERROR_NONE, [])
  | ML_NNFW_TYPE_SNAP =>
      if defined__ANDROID__ then Some (ML_ERROR_NONE, [])
      else Some (ML_ERROR_NOT_SUPPORTED,
                 _ml_loge "SNAP only can be included in Android (arm64-v8a only)." [])
  | ML_NNFW_TYPE_ARMNN =>
      ext0 ← file_ext !! 0%nat;
      if negb (g_str_equal ext0 ".caffemodel") &&
         negb (g_str_equal ext0 ".tflite") &&
         negb (g_str_equal ext0 ".pb") &&
         negb (g_str_equal ext0 ".prototxt")
      then Some (ML_ERROR_INVALID_PARAMETER, [])
      else Some (ML_ERROR_NONE, [])
  | _ => Some (ML_ERROR_INVALID_PARAMETER, [])
  end.

(** The label [done], lines 418-429. *)
Definition validate_done (status : ml_error_e) (nnfw : ml_nnfw_type_e)
    : ml_error_e * list log_entry :=
  if decide (status = ML_ERROR_NONE) then
    if negb (_ml_nnfw_is_available nnfw ML_NNFW_HW_ANY)
    then (ML_ERROR_NOT_SUPPORTED,
          _ml_loge "%s is not available." [GST_STR_NULL (_ml_get_nnfw_subplugin_name nnfw)])
    else (status, [])
  else (status, _ml_loge "The given model file is invalid." []).

(** The decision table and the extension check, lines 343-416: the status
    and [*nnfw] with which control reaches the label [done]. *)
Definition validate_decide (model : list (nullable string)) (is_dir : bool)
    (nnfw detected : ml_nnfw_type_e)
    : option (ml_error_e * ml_nnfw_type_e * list log_entry) :=
  if decide (nnfw = ML_NNFW_TYPE_ANY) then
    if decide (detected = ML_NNFW_TYPE_ANY) then
      Some (ML_ERROR_INVALID_PARAMETER, nnfw,
            _ml_loge "The given model has unknown or not supported extension." [])
    else
      Some (ML_ERROR_NONE, detected,
            _ml_logi "The given model is supposed a %s model."
                     [GST_STR_NULL (_ml_get_nnfw_subplugin_name detected)])
  else if is_dir && bool_decide (nnfw ≠ ML_NNFW_TYPE_NNFW) then
    Some (ML_ERROR_INVALID_PARAMETER, nnfw,
          _ml_loge "The given model is directory, check model and framework." [])
  else if decide (detected = nnfw) then
    Some (ML_ERROR_NONE, nnfw, [])
  else
    file_ext ← validate_file_ext model [];
    match file_ext with
    | inr m =>
        Some (ML_ERROR_INVALID_PARAMETER, nnfw,
              _ml_loge "The given model [%s] has invalid extension." [m])
    | inl file_ext =>
        '(status, log) ← validate_extension nnfw file_ext;
        Some (status, nnfw, log)
    end.

(** [_ml_validate_model_file], lines 316-430: the status, [*nnfw] as the
    call leaves it, and the log. *)
Definition _ml_validate_model_file (model : nullable (list (nullable string)))
    (nnfw : nullable ml_nnfw_type_e)
    : option (ml_error_e * nullable ml_nnfw_type_e * list log_entry) :=
  match nnfw with
  | NULL => Some (ML_ERROR_INVALID_PARAMETER, NULL, [])
  | Some nnfw =>
      let '(status, is_dir, log0) := __ml_validate_model_file model false in
      if decide (status ≠ ML_ERROR_NONE) then Some (status, Some nnfw, log0)
      else
        model ← model;
        let fw_name := gst_tensor_filter_detect_framework model true in
        let '(detected, log1) := _ml_get_nnfw_type_by_subplugin_name fw_name in
        '(status, nnfw, log2) ← validate_decide model is_dir nnfw detected;
        let '(status, log3) := validate_done status nnfw in
        Some (status, Some nnfw, log0 ++ log1 ++ log2 ++ log3)
  end.

(** The framework the detection resolves to. *)
Definition detected_framework (model : list (nullable string)) : ml_nnfw_type_e :=
  fst (_ml_get_nnfw_type_by_subplugin_name
         (gst_tensor_filter_detect_framework model true)).

End with_environment.

(** An environment to run the validation in: a directory and a few regular
    files, a detection that knows the extension [.tflite] of the first
    path, and the frameworks that [available] lists. *)
Definition example_environment (available : list ml_nnfw_type_e) : environment :=
  {| file_test := λ filename test,
       match test with
       | G_FILE_TEST_IS_DIR => bool_decide (filename ∈ ["model_dir"])
       | G_FILE_TEST_IS_REGULAR =>
           bool_decide (filename ∈ ["model.tflite"; "model.onnx"; "model.bin"; "weights"])
       end;
     gst_tensor_filter_detect_framework := λ model _,
       match model with
       | Some "model.tflite" :: _ => Some "tensorflow-lite"
       | _ => NULL
       end;
     _ml_nnfw_is_available := λ nnfw _, bool_decide (nnfw ∈ available);
     defined__ANDROID__ := false |}.

(** An environment given by its directories, its regular files, what the
    detection answers, the available frameworks and the platform. *)
Definition custom_environment (dirs files : list string)
    (detect : list (nullable string) → nullable string)
    (available : list ml_nnfw_type_e) (android : bool) : environment :=
  {| file_test := λ filename test,
       match test with
       | G_FILE_TEST_IS_DIR => bool_decide (filename ∈ dirs)
       | G_FILE_TEST_IS_REGULAR => bool_decide (filename ∈ files)
       end;
     gst_tensor_filter_detect_framework := λ model _, detect model;
     _ml_nnfw_is_available := λ nnfw _, bool_decide (nnfw ∈ available);
     defined__ANDROID__ := android |}.

End Validator.

(** ** Element availability *)

Module Gate.
Import CStr.
Local Open Scope string_scope.
Local Open Scope Z_scope.
Local Open Scope list_scope.

(** What [gst_element_factory_find] yields: of the factory, the code reads
    the name of the plugin that owns it. *)
Record GstElementFactory := {
  gst_plugin_feature_get_plugin_name : nullable string
}.

(** The surroundings: the status the [check_feature_state] macro finds, the
    outcome of [gst_init_check] (with the message of the error it may set),
    GStreamer's registry of elements, and the configuration read through
    [nnsconf_get_custom_value_bool] and [nnsconf_get_custom_value_string]. *)
Class environment := {
  feature_state : ml_error_e;
  gst_init_check : bool * nullable string;
  gst_element_factory_find : string → nullable GstElementFactory;
  nnsconf_get_custom_value_bool : string → string → bool → bool;
  nnsconf_get_custom_value_string : string → string → nullable string
}.

(** The two [static] variables of [_ml_check_plugin_availability]. *)
Record statics := {
  list_loaded : bool;
  restricted_elements : nullable (list (nullable string))
}.

Definition statics_init : statics :=
  {| list_loaded := false; restricted_elements := NULL |}.

Section with_environment.
Context {env : environment}.

(** [_ml_initialize_gstreamer], lines 231-248. *)
Definition _ml_initialize_gstreamer : ml_error_e * list log_entry :=
  let '(ok, err) := gst_init_check in
  if negb ok then
    (ML_ERROR_STREAMS_PIPE,
     match err with
     | Some message => _ml_loge "GStreamer has the following error: %s" [message]
     | NULL => _ml_loge "Cannot initialize GStreamer. Unknown reason." []
     end)
  else (ML_ERROR_NONE, []).

(** [_ml_check_plugin_availability], lines 530-577. *)
Definition _ml_check_plugin_availability (plugin_name element_name : nullable string)
    (st : statics) : ml_error_e * statics * list log_entry :=
  match plugin_name, element_name with
  | Some plugin_name, Some element_name =>
      let st :=
        if negb (list_loaded st) then
          let restricted :=
            nnsconf_get_custom_value_bool "element-restriction"
              "enable_element_restriction" false in
          let restricted_elements :=
            if restricted then
              match nnsconf_get_custom_value_string "element-restriction"
                      "restricted_elements" with
              | Some elements => Some (strv (g_strsplit_set elements " ,;"))
              | NULL => restricted_elements st
              end
            else restricted_elements st in
          {| list_loaded := true; restricted_elements := restricted_elements |}
        else st in
      if g_str_has_prefix plugin_name "nnstreamer" &&
         g_str_has_prefix element_name "tensor_"
      then (ML_ERROR_NONE, st, [])
      else
        match restricted_elements st with
        | Some elements =>
            if find_key_strv elements element_name <? 0
            then (ML_ERROR_NOT_SUPPORTED, st,
                  _ml_logw "The element %s is restricted." [element_name])
            else (ML_ERROR_NONE, st, [])
        | NULL => (ML_ERROR_NONE, st, [])
        end
  | _, _ =>
      (ML_ERROR_INVALID_PARAMETER, st,
       _ml_loge "The name is invalid, failed to check the availability." [])
  end.

(** [ml_check_element_availability], lines 493-525: the status,
    [*available] as the call leaves it, the statics and the log. *)
Definition ml_check_element_availability (element_name : nullable string)
    (available : nullable bool) (st : statics)
    : ml_error_e * nullable bool * statics * list log_entry :=
  if decide (feature_state ≠ ML_ERROR_NONE) then (feature_state, available, st, [])
  else
    match element_name, available with
    | Some element_name, Some _ =>
        let '(status, log0) := _ml_initialize_gstreamer in
        if decide (status ≠ ML_ERROR_NONE) then (status, available, st, log0)
        else
          let available := Some false in
          match gst_element_factory_find element_name with
          | Some factory =>
              let plugin_name := gst_plugin_feature_get_plugin_name factory in
              let '(status, st, log1) :=
                _ml_check_plugin_availability plugin_name (Some element_name) st in
              (ML_ERROR_NONE,
               if decide (status = ML_ERROR_NONE) then Some true else available,
               st, log0 ++ log1)
          | NULL => (ML_ERROR_NONE, available, st, log0)
          end
    | _, _ => (ML_ERROR_INVALID_PARAMETER, available, st, [])
    end.

(** The statics once the list has been loaded, lines 542-562. *)
Definition statics_loaded : statics :=
  {| list_loaded := true;
     restricted_elements :=
       if nnsconf_get_custom_value_bool "element-restriction"
            "enable_element_restriction" false
       then match nnsconf_get_custom_value_string "element-restriction"
                    "restricted_elements" with
            | Some elements => Some (strv (g_strsplit_set elements " ,;"))
            | NULL => NULL
            end
       else NULL |}.

(** The values the statics take in a process: as initialised, or as the
    first call that loads the list leaves them. *)
Definition statics_reachable (st : statics) : Prop :=
  st = statics_init ∨ st = statics_loaded.

End with_environment.

(** An environment to run the checks in: GStreamer starts, the registry
    knows a first-party element and one of another plugin, and the
    configuration is the one given. *)
Definition example_environment (restricted : bool) (elements : nullable string)
    : environment :=
  {| feature_state := ML_ERROR_NONE;
     gst_init_check := (true, NULL);
     gst_element_factory_find := λ element_name,
       if String.eqb element_name "tensor_filter"
       then Some {| gst_plugin_feature_get_plugin_name := Some "nnstreamer" |}
       else if String.eqb element_name "third_party_x"
       then Some {| gst_plugin_feature_get_plugin_name := Some "thirdparty" |}
       else NULL;
     nnsconf_get_custom_value_bool := λ section key default,
       if String.eqb section "element-restriction" &&
          String.eqb key "enable_element_restriction"
       then restricted else default;
     nnsconf_get_custom_value_string := λ section key,
       if String.eqb section "element-restriction" &&
          String.eqb key "restricted_elements"
       then elements else NULL |}.

End Gate.

(** * Properties *)

(** ** The embedding at work *)

Example strrchr_last_dot :
  CStr.strrchr "dir.d/Model.TFLite" "." = Some ".TFLite"%string.
Proof. reflexivity. Qed.

Example strrchr_no_dot : CStr.strrchr "weights" "." = NULL.
Proof. reflexivity. Qed.

Example g_ascii_strdown_extension : CStr.g_ascii_strdown ".TFLite" = ".tflite"%string.
Proof. reflexivity. Qed.

Example g_ascii_strcasecmp_snap :
  CStr.g_ascii_strcasecmp "SnAp" "snap" = 0 ∧
  CStr.g_ascii_strcasecmp "snapx" "snap" = 120 ∧
  CStr.g_ascii_strcasecmp "snpe" "snap" = 15.
Proof. repeat split. Qed.

Example g_strsplit_set_tokens :
  CStr.g_strsplit_set "videoconvert, appsrc;appsink" " ,;"
  = ["videoconvert"; ""; "appsrc"; "appsink"]%string ∧
  CStr.g_strsplit_set "" " ,;" = [].
Proof. split; reflexivity. Qed.

Example find_key_strv_index :
  CStr.find_key_strv Registry.ml_nnfw_subplugin_name "nnfw" = 4 ∧
  CStr.find_key_strv Registry.ml_nnfw_subplugin_name "trix-engine" = 14 ∧
  CStr.find_key_strv Registry.ml_nnfw_subplugin_name "snap" = -1.
Proof. repeat split. Qed.

Example subplugin_names :
  Registry._ml_get_nnfw_subplugin_name Registry.ML_NNFW_TYPE_SNAP = Some "snap"%string ∧
  Registry._ml_get_nnfw_subplugin_name Registry.ML_NNFW_TYPE_EDGE_TPU
  = Some "edgetpu"%string.
Proof. split; reflexivity. Qed.

Example copy_from_gst_runs :
  @Tensors._ml_tensors_info_copy_from_gst Tensors.headers_4_8
    (Some Tensors.example_ml) (Some Tensors.example_gst)
  = Some (Some
      {| Tensors.ml_num_tensors := 2;
         Tensors.ml_tensor_info :=
           [ {| Tensors.ml_name := Some "output"%string; Tensors.ml_type := 5;
                Tensors.ml_dimension := [3; 224; 224; 2] |};
             {| Tensors.ml_name := NULL; Tensors.ml_type := 10;
                Tensors.ml_dimension := [1001; 1; 1; 1] |};
             {| Tensors.ml_name := NULL; Tensors.ml_type := 10;
                Tensors.ml_dimension := [0; 0; 0; 0] |} ] |}).
Proof. reflexivity. Qed.

Example copy_from_ml_runs :
  @Tensors._ml_tensors_info_copy_from_ml Tensors.headers_4_8
    (Some Tensors.example_gst) (Some Tensors.example_ml)
  = Some (Some
      {| Tensors.gst_num_tensors := 2;
         Tensors.gst_tensor_info :=
           [ {| Tensors.gst_name := Some "input"%string; Tensors.gst_type := 7;
                Tensors.gst_dimension := [3; 224; 1; 1; 1; 1; 1; 1] |};
             {| Tensors.gst_name := NULL; Tensors.gst_type := 10;
                Tensors.gst_dimension := [10; 1; 1; 1; 1; 1; 1; 1] |};
             {| Tensors.gst_name := NULL; Tensors.gst_type := 10;
                Tensors.gst_dimension := [0; 0; 0; 0; 0; 0; 0; 0] |} ] |}).
Proof. reflexivity. Qed.

(** With the limits of the time, a freshly initialised public set converts
    to a freshly initialised internal set. *)
Example copy_from_ml_initialized :
  @Tensors._ml_tensors_info_copy_from_ml Tensors.headers_4_4
    (Some (@Tensors.gst_tensors_info_init Tensors.headers_4_4))
    (Some (@Tensors._ml_tensors_info_initialize Tensors.headers_4_4))
  = Some (Some (@Tensors.gst_tensors_info_init Tensors.headers_4_4)).
Proof. reflexivity. Qed.

(** A null pointer on either side: the function returns at once and the
    destination is as it was. *)
Example copy_from_gst_null :
  @Tensors._ml_tensors_info_copy_from_gst Tensors.headers_4_8
    (Some Tensors.example_ml) NULL = Some (Some Tensors.example_ml).
Proof. reflexivity. Qed.

(** A count beyond the arrays runs out of their bounds. *)
Example copy_from_gst_out_of_bounds :
  @Tensors._ml_tensors_info_copy_from_gst Tensors.headers_4_8
    (Some Tensors.example_ml)
    (Some {| Tensors.gst_num_tensors := 4;
             Tensors.gst_tensor_info := Tensors.gst_tensor_info Tensors.example_gst |})
  = None.
Proof. reflexivity. Qed.

(** A path that does not exist fails the existence checks, and the call
    returns before the detection; a null [nnfw] is refused at once; a
    directory handed to NNFW skips the checks of the files, and is refused
    for its missing extension when the detection does not resolve it. *)
Example validate_missing_file :
  @Validator._ml_validate_model_file (Validator.example_environment [])
    (Some [Some "model.tflite"; Some "missing.tflite"])
    (Some Registry.ML_NNFW_TYPE_TENSORFLOW_LITE)
  = Some (ML_ERROR_INVALID_PARAMETER, Some Registry.ML_NNFW_TYPE_TENSORFLOW_LITE,
          _ml_loge "The given param, model path [%s] is invalid or not given."
                   ["missing.tflite"%string]).
Proof. reflexivity. Qed.

Example validate_null_nnfw :
  @Validator._ml_validate_model_file (Validator.example_environment [])
    (Some [Some "model.tflite"%string]) NULL
  = Some (ML_ERROR_INVALID_PARAMETER, NULL, []).
Proof. reflexivity. Qed.

Example validate_directory_nnfw :
  @Validator._ml_validate_model_file
    (Validator.example_environment [Registry.ML_NNFW_TYPE_NNFW])
    (Some [Some "model_dir"%string]) (Some Registry.ML_NNFW_TYPE_NNFW)
  = Some (ML_ERROR_INVALID_PARAMETER, Some Registry.ML_NNFW_TYPE_NNFW,
          _ml_loge "The given model [%s] has invalid extension." ["model_dir"%string]
          ++ _ml_loge "The given model file is invalid." []).
Proof. reflexivity. Qed.

(** A first-party element is available whatever the restriction; an element
    that the registry does not know is not, without an error. *)
Example availability_first_party :
  @Gate.ml_check_element_availability
    (Gate.example_environment true (Some "appsrc"%string))
    (Some "tensor_filter"%string) (Some false) Gate.statics_init
  = (ML_ERROR_NONE, Some true,
     {| Gate.list_loaded := true;
        Gate.restricted_elements := Some [Some "appsrc"%string; NULL] |}, []).
Proof. reflexivity. Qed.

Example availability_unknown_element :
  @Gate.ml_check_element_availability
    (Gate.example_environment false NULL)
    (Some "no_such_element"%string) (Some true) Gate.statics_init
  = (ML_ERROR_NONE, Some false, Gate.statics_init, []).
Proof. reflexivity. Qed.

Example availability_null_name :
  @Gate.ml_check_element_availability
    (Gate.example_environment false NULL) NULL (Some true) Gate.statics_init
  = (ML_ERROR_INVALID_PARAMETER, Some true, Gate.statics_init, []).
Proof. reflexivity. Qed.

(** ** Loops *)

(** The rule for a counted loop: an invariant that holds on entry and that
    every turn carries from [k] to [k + 1] holds on exit, and the loop
    returns. *)
Lemma for_range_inv {St : Type} (I : nat → St → Prop) body from count (s : St) :
  I from s →
  (∀ k s, (from ≤ k < from + count)%nat → I k s →
          ∃ s', body k s = Some s' ∧ I (S k) s') →
  ∃ s', for_range from count body s = Some s' ∧ I (from + count)%nat s'.
Proof.
  revert from s. induction count as [|n IH]; intros from s H0 Hstep; simpl.
  - exists s. by rewrite Nat.add_0_r.
  - destruct (Hstep from s) as (s1 & -> & H1); [lia|done|]. simpl.
    destruct (IH (S from) s1) as (s' & Hs' & HI); [done| |].
    + intros k s2 Hk. apply Hstep. lia.
    + exists s'. split; [done|].
      by replace (from + S n)%nat with (S from + n)%nat by lia.
Qed.

Lemma array_set_Some {A : Type} (a : list A) i v :
  (i < length a)%nat → array_set a i v = Some (<[i := v]> a).
Proof. intros. unfold array_set. by rewrite decide_True. Qed.

(** ** The tensor descriptor converter *)

Section tensors_facts.
Import Tensors.
Context {hd : headers}.

Lemma copy_dimension_spec limit (src dst : list Z) :
  (max_dim ≤ length src)%nat → length dst = limit → (max_dim ≤ limit)%nat →
  copy_dimension limit src dst
  = Some (take max_dim src ++ replicate (limit - max_dim) 1).
Proof.
  intros Hsrc Hdst Hlim. unfold copy_dimension.
  destruct (for_range_inv
    (λ k (d : list Z), length d = limit ∧
       ∀ m, d !! m = if decide (m < k)%nat then src !! m else dst !! m)
    (λ j dst, v ← src !! j; array_set dst j v) 0%nat max_dim dst)
    as (d1 & -> & Hlen1 & Hd1).
  { split; [done|]. intros m. by rewrite decide_False by lia. }
  { intros k d Hk [Hlen Hd].
    destruct (lookup_lt_is_Some_2 src k) as [v Hv]; [lia|].
    rewrite Hv. simpl. rewrite array_set_Some by lia.
    eexists; split; [done|]. split; [by rewrite length_insert|].
    intros m. destruct (decide (m = k)) as [->|Hne].
    - rewrite list_lookup_insert_eq by lia. by rewrite decide_True by lia.
    - rewrite list_lookup_insert_ne by done. rewrite Hd.
      repeat case_decide; try lia; done. }
  simpl.
  destruct (for_range_inv
    (λ k (d : list Z), length d = limit ∧
       ∀ m, d !! m = if decide (m < max_dim)%nat then src !! m
                     else if decide (m < k)%nat then Some 1 else dst !! m)
    (λ j dst, array_set dst j 1) max_dim (limit - max_dim)%nat d1)
    as (d2 & -> & Hlen2 & Hd2).
  { split; [done|]. intros m. rewrite Hd1.
    repeat case_decide; try lia; done. }
  { intros k d Hk [Hlen Hd]. rewrite array_set_Some by lia.
    eexists; split; [done|]. split; [by rewrite length_insert|].
    intros m. destruct (decide (m = k)) as [->|Hne].
    - rewrite list_lookup_insert_eq by lia.
      repeat case_decide; try lia; done.
    - rewrite list_lookup_insert_ne by done. rewrite Hd.
      repeat case_decide; try lia; done. }
  f_equal. apply list_eq. intros m. rewrite Hd2.
  replace (max_dim + (limit - max_dim))%nat with limit by lia.
  destruct (decide (m < max_dim)%nat).
  - rewrite lookup_app_l by (rewrite length_take; lia).
    by rewrite lookup_take_lt.
  - rewrite lookup_app_r by (rewrite length_take; lia).
    rewrite length_take, Nat.min_l by lia.
    destruct (decide (m < limit)%nat).
    + symmetry. apply lookup_replicate. split; [done|lia].
    + rewrite lookup_ge_None_2 by lia. symmetry.
      apply lookup_ge_None_2. rewrite length_replicate. lia.
Qed.

Lemma max_dim_le_ml : (max_dim ≤ ML_TENSOR_RANK_LIMIT)%nat.
Proof. unfold max_dim. lia. Qed.

Lemma max_dim_le_nns : (max_dim ≤ NNS_TENSOR_RANK_LIMIT)%nat.
Proof. unfold max_dim. lia. Qed.

(** The loop of [_ml_tensors_info_copy_from_gst] as a function: the first
    [num_tensors] slots hold the converted descriptors, the others are as
    the initialisation left them. *)
Lemma copy_from_gst_spec (d : ml_tensors_info_s) (g : GstTensorsInfo) :
  gst_tensors_info_wf g →
  (gst_num_tensors g ≤ ML_TENSOR_SIZE_LIMIT)%nat →
  _ml_tensors_info_copy_from_gst (Some d) (Some g)
  = Some (Some
      {| ml_num_tensors := gst_num_tensors g;
         ml_tensor_info :=
           (copy_from_gst_slot <$> take (gst_num_tensors g) (gst_tensor_info g))
           ++ drop (gst_num_tensors g) (ml_tensor_info _ml_tensors_info_initialize) |}).
Proof.
  intros (Hlen & Hn & Hdims) Hn'. unfold _ml_tensors_info_copy_from_gst.
  set (n := gst_num_tensors g) in *.
  set (init := ml_tensor_info _ml_tensors_info_initialize).
  destruct (for_range_inv
    (λ k (s : ml_tensors_info_s),
       ml_num_tensors s = n ∧ length (ml_tensor_info s) = ML_TENSOR_SIZE_LIMIT ∧
       ∀ m, ml_tensor_info s !! m
            = if decide (m < k)%nat
              then copy_from_gst_slot <$> (gst_tensor_info g !! m)
              else init !! m)
    (copy_from_gst_tensor g) 0%nat n
    {| ml_num_tensors := n; ml_tensor_info := init |})
    as (s & -> & Hnum & Hlen' & Hs).
  { split; [done|]. split; [apply length_replicate|].
    intros m. by rewrite decide_False by lia. }
  { intros k s Hk (Hnum & Hlen' & Hs). unfold copy_from_gst_tensor.
    destruct (lookup_lt_is_Some_2 (gst_tensor_info g) k) as [src Hsrc]; [lia|].
    rewrite Hsrc. simpl. rewrite Hs, decide_False by lia.
    unfold init, _ml_tensors_info_initialize. simpl.
    rewrite (proj2 (lookup_replicate _ _ _ _)) by (split; [done|lia]). simpl.
    rewrite copy_dimension_spec; cycle 1.
    { rewrite Forall_lookup in Hdims. rewrite (Hdims _ _ Hsrc).
      apply max_dim_le_nns. }
    { apply length_replicate. }
    { apply max_dim_le_ml. }
    simpl. rewrite array_set_Some by lia. simpl.
    eexists; split; [done|]. simpl. split; [done|].
    split; [by rewrite length_insert|].
    intros m. destruct (decide (m = k)) as [->|Hne].
    - rewrite list_lookup_insert_eq by lia. rewrite decide_True by lia.
      rewrite Hsrc. simpl. unfold copy_from_gst_slot, g_strdup.
      by destruct (gst_name src).
    - rewrite list_lookup_insert_ne by done. rewrite Hs.
      repeat case_decide; try lia; done. }
  simpl. do 2 f_equal. destruct s as [num info]. simpl in *. f_equal; [done|].
  apply list_eq. intros m. rewrite Hs.
  assert (length (take n (gst_tensor_info g)) = n) as Htake
    by (rewrite length_take; lia).
  destruct (decide (m < n)%nat).
  - rewrite lookup_app_l by (rewrite length_fmap; lia).
    by rewrite list_lookup_fmap, lookup_take_lt.
  - rewrite lookup_app_r by (rewrite length_fmap; lia).
    rewrite length_fmap, Htake, lookup_drop. f_equal. lia.
Qed.

(** The same for [_ml_tensors_info_copy_from_ml]. *)
Lemma copy_from_ml_spec (d : GstTensorsInfo) (x : ml_tensors_info_s) :
  ml_tensors_info_wf x →
  (ml_num_tensors x ≤ NNS_TENSOR_SIZE_LIMIT)%nat →
  _ml_tensors_info_copy_from_ml (Some d) (Some x)
  = Some (Some
      {| gst_num_tensors := ml_num_tensors x;
         gst_tensor_info :=
           (copy_from_ml_slot <$> take (ml_num_tensors x) (ml_tensor_info x))
           ++ drop (ml_num_tensors x) (gst_tensor_info gst_tensors_info_init) |}).
Proof.
  intros (Hlen & Hn & Hdims) Hn'. unfold _ml_tensors_info_copy_from_ml.
  set (n := ml_num_tensors x) in *.
  set (init := gst_tensor_info gst_tensors_info_init).
  destruct (for_range_inv
    (λ k (s : GstTensorsInfo),
       gst_num_tensors s = n ∧ length (gst_tensor_info s) = NNS_TENSOR_SIZE_LIMIT ∧
       ∀ m, gst_tensor_info s !! m
            = if decide (m < k)%nat
              then copy_from_ml_slot <$> (ml_tensor_info x !! m)
              else init !! m)
    (copy_from_ml_tensor x) 0%nat n
    {| gst_num_tensors := n; gst_tensor_info := init |})
    as (s & -> & Hnum & Hlen' & Hs).
  { split; [done|]. split; [apply length_replicate|].
    intros m. by rewrite decide_False by lia. }
  { intros k s Hk (Hnum & Hlen' & Hs). unfold copy_from_ml_tensor.
    destruct (lookup_lt_is_Some_2 (ml_tensor_info x) k) as [src Hsrc]; [lia|].
    rewrite Hsrc. simpl. rewrite Hs, decide_False by lia.
    unfold init, gst_tensors_info_init. simpl.
    rewrite (proj2 (lookup_replicate _ _ _ _)) by (split; [done|lia]). simpl.
    rewrite copy_dimension_spec; cycle 1.
    { rewrite Forall_lookup in Hdims. rewrite (Hdims _ _ Hsrc).
      apply max_dim_le_ml. }
    { apply length_replicate. }
    { apply max_dim_le_nns. }
    simpl. rewrite array_set_Some by lia. simpl.
    eexists; split; [done|]. simpl. split; [done|].
    split; [by rewrite length_insert|].
    intros m. destruct (decide (m = k)) as [->|Hne].
    - rewrite list_lookup_insert_eq by lia. rewrite decide_True by lia.
      rewrite Hsrc. simpl. unfold copy_from_ml_slot, g_strdup.
      by destruct (ml_name src).
    - rewrite list_lookup_insert_ne by done. rewrite Hs.
      repeat case_decide; try lia; done. }
  simpl. do 2 f_equal. destruct s as [num info]. simpl in *. f_equal; [done|].
  apply list_eq. intros m. rewrite Hs.
  assert (length (take n (ml_tensor_info x)) = n) as Htake
    by (rewrite length_take; lia).
  destruct (decide (m < n)%nat).
  - rewrite lookup_app_l by (rewrite length_fmap; lia).
    by rewrite list_lookup_fmap, lookup_take_lt.
  - rewrite lookup_app_r by (rewrite length_fmap; lia).
    rewrite length_fmap, Htake, lookup_drop. f_equal. lia.
Qed.

(** *** The two [switch] statements *)

Ltac split_NoDup :=
  repeat match goal with
         | H : NoDup (_ :: _) |- _ => apply NoDup_cons in H as [? H]
         end;
  repeat match goal with
         | H : _ ∉ _ :: _ |- _ => apply not_elem_of_cons in H as [? H]
         end.

Ltac run_switch :=
  repeat match goal with
         | |- context [(?a =? ?b)%Z] =>
             destruct (Z.eqb_spec a b); [congruence|]
         end.

Lemma copy_from_gst_type_known :
  headers_wf →
  Forall2 (λ src dst, copy_from_gst_type src = dst) nns_known_types ml_known_types.
Proof.
  intros [_ H]. unfold tensor_type, nns_known_types in H. simpl in H.
  split_NoDup.
  unfold nns_known_types, ml_known_types.
  repeat (constructor;
          [unfold copy_from_gst_type;
           repeat match goal with
                  | |- context [(?a =? ?a)%Z] => rewrite (Z.eqb_refl a)
                  | |- context [(?a =? ?b)%Z] =>
                      destruct (Z.eqb_spec a b); [congruence|]
                  end; reflexivity|]).
  constructor.
Qed.

Lemma copy_from_ml_type_known :
  headers_wf →
  Forall2 (λ src dst, copy_from_ml_type src = dst) ml_known_types nns_known_types.
Proof.
  intros [H _]. unfold ml_tensor_type_e, ml_known_types in H. simpl in H.
  split_NoDup.
  unfold nns_known_types, ml_known_types.
  repeat (constructor;
          [unfold copy_from_ml_type;
           repeat match goal with
                  | |- context [(?a =? ?a)%Z] => rewrite (Z.eqb_refl a)
                  | |- context [(?a =? ?b)%Z] =>
                      destruct (Z.eqb_spec a b); [congruence|]
                  end; reflexivity|]).
  constructor.
Qed.

Lemma copy_from_gst_type_default (t : Z) :
  t ∉ nns_known_types → copy_from_gst_type t = ML_TENSOR_TYPE_UNKNOWN.
Proof.
  unfold nns_known_types. intros H. split_NoDup.
  unfold copy_from_gst_type. run_switch. reflexivity.
Qed.

Lemma copy_from_ml_type_default (t : Z) :
  t ∉ ml_known_types → copy_from_ml_type t = _NNS_END.
Proof.
  unfold ml_known_types. intros H. split_NoDup.
  unfold copy_from_ml_type. run_switch. reflexivity.
Qed.

Lemma ml_unknown_not_known : headers_wf → ML_TENSOR_TYPE_UNKNOWN ∉ ml_known_types.
Proof.
  intros [H _]. unfold ml_tensor_type_e in H.
  apply NoDup_app in H as (_ & H & _). intros Hin. apply (H _ Hin). constructor.
Qed.

Lemma nns_end_not_known : headers_wf → _NNS_END ∉ nns_known_types.
Proof.
  intros [_ H]. unfold tensor_type in H.
  apply NoDup_app in H as (_ & H & _). intros Hin. apply (H _ Hin). constructor.
Qed.

(** *** Slot by slot *)

Lemma copy_from_gst_slots (d : ml_tensors_info_s) (g : GstTensorsInfo) :
  gst_tensors_info_wf g →
  (gst_num_tensors g ≤ ML_TENSOR_SIZE_LIMIT)%nat →
  ∃ y, _ml_tensors_info_copy_from_gst (Some d) (Some g) = Some (Some y) ∧
       ml_num_tensors y = gst_num_tensors g ∧
       ml_tensors_info_wf y ∧
       ∀ i src, (i < gst_num_tensors g)%nat → gst_tensor_info g !! i = Some src →
                ml_tensor_info y !! i = Some (copy_from_gst_slot src).
Proof.
  intros Hwf Hn. eexists. split; [by apply copy_from_gst_spec|].
  destruct Hwf as (Hlen & Hn' & Hdims). simpl.
  assert (length (take (gst_num_tensors g) (gst_tensor_info g)) = gst_num_tensors g)
    as Htake by (rewrite length_take; lia).
  split; [done|]. split.
  - unfold ml_tensors_info_wf. simpl.
    rewrite length_app, length_fmap, Htake, length_drop, length_replicate.
    split; [lia|]. split; [done|].
    apply Forall_app. split.
    + apply Forall_fmap.
      eapply Forall_impl; [by apply Forall_take|].
      intros t Ht. simpl.
      rewrite length_app, length_replicate, length_take, Ht.
      pose proof max_dim_le_ml. pose proof max_dim_le_nns. lia.
    + apply Forall_drop, Forall_replicate. apply length_replicate.
  - intros i src Hi Hsrc.
    rewrite lookup_app_l by (rewrite length_fmap; lia).
    by rewrite list_lookup_fmap, lookup_take_lt, Hsrc.
Qed.

Lemma copy_from_ml_slots (d : GstTensorsInfo) (x : ml_tensors_info_s) :
  ml_tensors_info_wf x →
  (ml_num_tensors x ≤ NNS_TENSOR_SIZE_LIMIT)%nat →
  ∃ g, _ml_tensors_info_copy_from_ml (Some d) (Some x) = Some (Some g) ∧
       gst_num_tensors g = ml_num_tensors x ∧
       gst_tensors_info_wf g ∧
       ∀ i src, (i < ml_num_tensors x)%nat → ml_tensor_info x !! i = Some src →
                gst_tensor_info g !! i = Some (copy_from_ml_slot src).
Proof.
  intros Hwf Hn. eexists. split; [by apply copy_from_ml_spec|].
  destruct Hwf as (Hlen & Hn' & Hdims). simpl.
  assert (length (take (ml_num_tensors x) (ml_tensor_info x)) = ml_num_tensors x)
    as Htake by (rewrite length_take; lia).
  split; [done|]. split.
  - unfold gst_tensors_info_wf. simpl.
    rewrite length_app, length_fmap, Htake, length_drop, length_replicate.
    split; [lia|]. split; [done|].
    apply Forall_app. split.
    + apply Forall_fmap.
      eapply Forall_impl; [by apply Forall_take|].
      intros t Ht. simpl.
      rewrite length_app, length_replicate, length_take, Ht.
      pose proof max_dim_le_ml. pose proof max_dim_le_nns. lia.
    + apply Forall_drop, Forall_replicate. apply length_replicate.
  - intros i src Hi Hsrc.
    rewrite lookup_app_l by (rewrite length_fmap; lia).
    by rewrite list_lookup_fmap, lookup_take_lt, Hsrc.
Qed.

Lemma dimension_padded_slot limit (src : list Z) :
  (max_dim ≤ length src)%nat → (max_dim ≤ limit)%nat →
  dimension_padded limit src (take max_dim src ++ replicate (limit - max_dim) 1).
Proof.
  intros Hsrc Hlim.
  assert (length (take max_dim src) = max_dim) as Htake
    by (rewrite length_take; lia).
  split; [|split].
  - rewrite length_app, length_replicate, Htake. lia.
  - intros j Hj. rewrite lookup_app_l by lia. by apply lookup_take_lt.
  - intros j Hj. rewrite lookup_app_r by lia.
    apply lookup_replicate. split; [done|lia].
Qed.

(** *** The claims on the converter *)

(** C3. The type tag is mapped by a total function in both directions: each
    of the ten numeric tags goes to its counterpart (the lists name them in
    the same order), every other value of the source tag goes to
    [ML_TENSOR_TYPE_UNKNOWN], respectively [_NNS_END], which is none of the
    numeric tags; and each conversion returns, storing in every slot the
    image of the source slot's tag. *)
Theorem type_tag_mapping_total
    (d : ml_tensors_info_s) (g : GstTensorsInfo)
    (d' : GstTensorsInfo) (x : ml_tensors_info_s) :
  headers_wf →
  gst_tensors_info_wf g → (gst_num_tensors g ≤ ML_TENSOR_SIZE_LIMIT)%nat →
  ml_tensors_info_wf x → (ml_num_tensors x ≤ NNS_TENSOR_SIZE_LIMIT)%nat →
  (Forall2 (λ src dst, copy_from_gst_type src = dst) nns_known_types ml_known_types ∧
   (∀ t, t ∉ nns_known_types → copy_from_gst_type t = ML_TENSOR_TYPE_UNKNOWN) ∧
   (ML_TENSOR_TYPE_UNKNOWN ∉ ml_known_types) ∧
   (∃ y, _ml_tensors_info_copy_from_gst (Some d) (Some g) = Some (Some y) ∧
         ∀ i src, (i < gst_num_tensors g)%nat → gst_tensor_info g !! i = Some src →
                  ml_type <$> ml_tensor_info y !! i
                  = Some (copy_from_gst_type (gst_type src)))) ∧
  (Forall2 (λ src dst, copy_from_ml_type src = dst) ml_known_types nns_known_types ∧
   (∀ t, t ∉ ml_known_types → copy_from_ml_type t = _NNS_END) ∧
   (_NNS_END ∉ nns_known_types) ∧
   (∃ g', _ml_tensors_info_copy_from_ml (Some d') (Some x) = Some (Some g') ∧
          ∀ i src, (i < ml_num_tensors x)%nat → ml_tensor_info x !! i = Some src →
                   gst_type <$> gst_tensor_info g' !! i
                   = Some (copy_from_ml_type (ml_type src)))).
Proof.
  intros Hhd Hg Hgn Hx Hxn. split.
  - split; [by apply copy_from_gst_type_known|].
    split; [apply copy_from_gst_type_default|].
    split; [by apply ml_unknown_not_known|].
    destruct (copy_from_gst_slots d g Hg Hgn) as (y & Hy & _ & _ & Hslots).
    exists y. split; [done|]. intros i src Hi Hsrc.
    by rewrite (Hslots i src Hi Hsrc).
  - split; [by apply copy_from_ml_type_known|].
    split; [apply copy_from_ml_type_default|].
    split; [by apply nns_end_not_known|].
    destruct (copy_from_ml_slots d' x Hx Hxn) as (g' & Hg' & _ & _ & Hslots).
    exists g'. split; [done|]. intros i src Hi Hsrc.
    by rewrite (Hslots i src Hi Hsrc).
Qed.

(** C2. Dimension padding: in both directions the conversion returns, and
    for every tensor of the source set the destination's slots below
    [MIN (ML_TENSOR_RANK_LIMIT, NNS_TENSOR_RANK_LIMIT)] are those of the
    source and every further slot up to the destination's own limit holds
    [1]. *)
Theorem dimension_padding_rule
    (d : ml_tensors_info_s) (g : GstTensorsInfo)
    (d' : GstTensorsInfo) (x : ml_tensors_info_s) :
  gst_tensors_info_wf g → (gst_num_tensors g ≤ ML_TENSOR_SIZE_LIMIT)%nat →
  ml_tensors_info_wf x → (ml_num_tensors x ≤ NNS_TENSOR_SIZE_LIMIT)%nat →
  (∃ y, _ml_tensors_info_copy_from_gst (Some d) (Some g) = Some (Some y) ∧
        ∀ i src, (i < gst_num_tensors g)%nat → gst_tensor_info g !! i = Some src →
          ∃ dst, ml_tensor_info y !! i = Some dst ∧
                 dimension_padded ML_TENSOR_RANK_LIMIT
                   (gst_dimension src) (ml_dimension dst)) ∧
  (∃ g', _ml_tensors_info_copy_from_ml (Some d') (Some x) = Some (Some g') ∧
         ∀ i src, (i < ml_num_tensors x)%nat → ml_tensor_info x !! i = Some src →
           ∃ dst, gst_tensor_info g' !! i = Some dst ∧
                  dimension_padded NNS_TENSOR_RANK_LIMIT
                    (ml_dimension src) (gst_dimension dst)).
Proof.
  intros Hg Hgn Hx Hxn. split.
  - destruct (copy_from_gst_slots d g Hg Hgn) as (y & Hy & _ & _ & Hslots).
    exists y. split; [done|]. intros i src Hi Hsrc.
    eexists. split; [by apply Hslots|]. simpl.
    apply dimension_padded_slot; [|apply max_dim_le_ml].
    destruct Hg as (_ & _ & Hdims). rewrite Forall_lookup in Hdims.
    rewrite (Hdims _ _ Hsrc). apply max_dim_le_nns.
  - destruct (copy_from_ml_slots d' x Hx Hxn) as (g' & Hg' & _ & _ & Hslots).
    exists g'. split; [done|]. intros i src Hi Hsrc.
    eexists. split; [by apply Hslots|]. simpl.
    apply dimension_padded_slot; [|apply max_dim_le_nns].
    destruct Hx as (_ & _ & Hdims). rewrite Forall_lookup in Hdims.
    rewrite (Hdims _ _ Hsrc). apply max_dim_le_ml.
Qed.

Lemma type_round_trip (t : Z) :
  headers_wf → t ∈ ml_tensor_type_e →
  copy_from_gst_type (copy_from_ml_type t) = t.
Proof.
  intros Hhd Ht. unfold ml_tensor_type_e in Ht.
  apply elem_of_app in Ht as [Ht|Ht].
  - apply list_elem_of_lookup in Ht as [i Hi].
    destruct (Forall2_lookup_l _ _ _ _ _ (copy_from_ml_type_known Hhd) Hi)
      as (s & Hs & ->).
    destruct (Forall2_lookup_l _ _ _ _ _ (copy_from_gst_type_known Hhd) Hs)
      as (t' & Ht' & ->).
    congruence.
  - apply list_elem_of_singleton in Ht as ->.
    rewrite copy_from_ml_type_default by by apply ml_unknown_not_known.
    apply copy_from_gst_type_default. by apply nns_end_not_known.
Qed.

Lemma dimension_round_trip (dimension : list Z) :
  length dimension = ML_TENSOR_RANK_LIMIT →
  rank_at_most max_dim dimension →
  take max_dim (take max_dim dimension
                ++ replicate (NNS_TENSOR_RANK_LIMIT - max_dim) 1)
  ++ replicate (ML_TENSOR_RANK_LIMIT - max_dim) 1 = dimension.
Proof.
  intros Hlen Hrank. pose proof max_dim_le_ml as Hle.
  assert (length (take max_dim dimension) = max_dim) as Htake
    by (rewrite length_take; lia).
  rewrite take_app_le by lia. rewrite take_take, Nat.min_id.
  rewrite <- (take_drop max_dim dimension) at 2. f_equal.
  apply list_eq. intros j. rewrite lookup_drop.
  destruct (decide (j < ML_TENSOR_RANK_LIMIT - max_dim)%nat).
  - rewrite Hrank by lia. apply lookup_replicate. done.
  - rewrite !lookup_ge_None_2; [done|lia|rewrite length_replicate; lia].
Qed.

(** C1. Round trip: a public descriptor set whose tensors have rank at most
    [MIN (ML_TENSOR_RANK_LIMIT, NNS_TENSOR_RANK_LIMIT)] (and whose type tags
    are values of [ml_tensor_type_e], the count fitting both arrays) is
    converted to the internal representation and back without a change: the
    count is the same and every tensor slot, in place, has the same name,
    type tag and dimensions. *)
Theorem round_trip_from_ml_from_gst
    (d' : GstTensorsInfo) (d : ml_tensors_info_s) (x : ml_tensors_info_s) :
  headers_wf →
  ml_tensors_info_wf x → (ml_num_tensors x ≤ NNS_TENSOR_SIZE_LIMIT)%nat →
  (∀ i t, (i < ml_num_tensors x)%nat → ml_tensor_info x !! i = Some t →
          ml_type t ∈ ml_tensor_type_e ∧ rank_at_most max_dim (ml_dimension t)) →
  ∃ g y,
    _ml_tensors_info_copy_from_ml (Some d') (Some x) = Some (Some g) ∧
    _ml_tensors_info_copy_from_gst (Some d) (Some g) = Some (Some y) ∧
    ml_num_tensors y = ml_num_tensors x ∧
    ∀ i, (i < ml_num_tensors x)%nat → ml_tensor_info y !! i = ml_tensor_info x !! i.
Proof.
  intros Hhd Hx Hxn Hrank.
  destruct (copy_from_ml_slots d' x Hx Hxn) as (g & Hg & Hgnum & Hgwf & Hgslots).
  destruct Hx as (Hlen & Hn & Hdims).
  destruct (copy_from_gst_slots d g Hgwf) as (y & Hy & Hynum & _ & Hyslots);
    [lia|].
  exists g, y. split; [done|]. split; [done|]. split; [congruence|].
  intros i Hi.
  destruct (lookup_lt_is_Some_2 (ml_tensor_info x) i) as [t Ht]; [lia|].
  rewrite Ht. rewrite (Hyslots i (copy_from_ml_slot t)); cycle 1.
  { lia. } { by apply Hgslots. }
  destruct (Hrank i t Hi Ht) as [Htype Hr].
  rewrite Forall_lookup in Hdims. specialize (Hdims i t Ht).
  f_equal. destruct t as [name type dimension]. simpl in *.
  unfold copy_from_gst_slot, copy_from_ml_slot. simpl.
  by rewrite type_round_trip, dimension_round_trip.
Qed.

End tensors_facts.

(** The claims at concrete descriptor sets. *)

Lemma headers_wf_example ml_rank nns_rank size :
  @Tensors.headers_wf (Tensors.example_headers ml_rank nns_rank size).
Proof.
  split; cbv; apply (bool_decide_unpack _); vm_compute; exact I.
Qed.

Lemma example_ml_wf nns_rank :
  @Tensors.ml_tensors_info_wf (Tensors.example_headers 4 nns_rank 3) Tensors.example_ml.
Proof. split; [reflexivity|]. split; [simpl; lia|]. repeat constructor. Qed.

Lemma example_gst_wf :
  @Tensors.gst_tensors_info_wf Tensors.headers_4_8 Tensors.example_gst.
Proof. split; [reflexivity|]. split; [simpl; lia|]. repeat constructor. Qed.

Lemma type_tag_mapping_total_witness :
  (∃ y, @Tensors._ml_tensors_info_copy_from_gst Tensors.headers_4_8
          (Some Tensors.example_ml) (Some Tensors.example_gst) = Some (Some y) ∧
        Tensors.ml_type <$> Tensors.ml_tensor_info y !! 0%nat = Some 5 ∧
        Tensors.ml_type <$> Tensors.ml_tensor_info y !! 1%nat = Some 10) ∧
  (∃ g, @Tensors._ml_tensors_info_copy_from_ml Tensors.headers_4_8
          (Some Tensors.example_gst) (Some Tensors.example_ml) = Some (Some g) ∧
        Tensors.gst_type <$> Tensors.gst_tensor_info g !! 0%nat = Some 7 ∧
        Tensors.gst_type <$> Tensors.gst_tensor_info g !! 1%nat = Some 10).
Proof.
  destruct (@type_tag_mapping_total Tensors.headers_4_8
              Tensors.example_ml Tensors.example_gst
              Tensors.example_gst Tensors.example_ml)
    as [(_ & _ & _ & y & Hy & Hty) (_ & _ & _ & g & Hg & Htg)].
  - apply headers_wf_example.
  - apply example_gst_wf.
  - simpl. lia.
  - apply example_ml_wf.
  - simpl. lia.
  - split.
    + exists y. split; [exact Hy|]. split.
      * exact (Hty 0%nat _ ltac:(simpl; lia) eq_refl).
      * exact (Hty 1%nat _ ltac:(simpl; lia) eq_refl).
    + exists g. split; [exact Hg|]. split.
      * exact (Htg 0%nat _ ltac:(simpl; lia) eq_refl).
      * exact (Htg 1%nat _ ltac:(simpl; lia) eq_refl).
Defined.

Lemma dimension_padding_rule_witness :
  (∃ y dst,
     @Tensors._ml_tensors_info_copy_from_gst Tensors.headers_4_8
       (Some Tensors.example_ml) (Some Tensors.example_gst) = Some (Some y) ∧
     Tensors.ml_tensor_info y !! 0%nat = Some dst ∧
     @Tensors.dimension_padded Tensors.headers_4_8 4
       [3; 224; 224; 2; 5; 6; 7; 8] (Tensors.ml_dimension dst)) ∧
  (∃ g dst,
     @Tensors._ml_tensors_info_copy_from_ml Tensors.headers_4_8
       (Some Tensors.example_gst) (Some Tensors.example_ml) = Some (Some g) ∧
     Tensors.gst_tensor_info g !! 0%nat = Some dst ∧
     @Tensors.dimension_padded Tensors.headers_4_8 8
       [3; 224; 1; 1] (Tensors.gst_dimension dst)).
Proof.
  destruct (@dimension_padding_rule Tensors.headers_4_8
              Tensors.example_ml Tensors.example_gst
              Tensors.example_gst Tensors.example_ml)
    as [(y & Hy & Hdy) (g & Hg & Hdg)].
  - apply example_gst_wf.
  - simpl. lia.
  - apply example_ml_wf.
  - simpl. lia.
  - split.
    + destruct (Hdy 0%nat _ ltac:(simpl; lia) eq_refl) as (dst & Hdst & Hpad).
      exists y, dst. split; [exact Hy|]. split; [exact Hdst|exact Hpad].
    + destruct (Hdg 0%nat _ ltac:(simpl; lia) eq_refl) as (dst & Hdst & Hpad).
      exists g, dst. split; [exact Hg|]. split; [exact Hdst|exact Hpad].
Defined.

Lemma round_trip_from_ml_from_gst_witness :
  ∃ g y,
    @Tensors._ml_tensors_info_copy_from_ml Tensors.headers_4_2
      (Some Tensors.example_gst) (Some Tensors.example_ml) = Some (Some g) ∧
    @Tensors._ml_tensors_info_copy_from_gst Tensors.headers_4_2
      (Some Tensors.example_ml) (Some g) = Some (Some y) ∧
    Tensors.ml_num_tensors y = 2%nat ∧
    ∀ i, (i < 2)%nat →
         Tensors.ml_tensor_info y !! i = Tensors.ml_tensor_info Tensors.example_ml !! i.
Proof.
  apply (@round_trip_from_ml_from_gst Tensors.headers_4_2
           Tensors.example_gst Tensors.example_ml Tensors.example_ml).
  - apply headers_wf_example.
  - apply example_ml_wf.
  - simpl. lia.
  - intros i t Hi Ht. simpl in Hi.
    destruct i as [|[|i]]; [| |lia]; injection Ht as <-; simpl.
    + split; [apply (bool_decide_unpack _); vm_compute; exact I|].
      intros j Hj. simpl in Hj. unfold Tensors.max_dim in Hj. simpl in Hj.
      destruct j as [|[|[|[|j]]]]; [lia|lia|reflexivity|reflexivity|lia].
    + split; [apply (bool_decide_unpack _); vm_compute; exact I|].
      intros j Hj. simpl in Hj. unfold Tensors.max_dim in Hj. simpl in Hj.
      destruct j as [|[|[|[|j]]]]; [lia|lia|reflexivity|reflexivity|lia].
Defined.

(** ** The framework registry *)

Section registry_facts.
Import CStr Registry.
Local Open Scope string_scope.
Local Open Scope Z_scope.
Local Open Scope list_scope.

(** A key that the vector does not hold is not found. *)
Lemma find_key_strv_from_absent (cursor : Z) (l : list string) (key : string) :
  key ∉ l → find_key_strv_from cursor (strv l) key = -1.
Proof.
  revert cursor. induction l as [|s l IH]; intros cursor Hkey; [done|].
  apply not_elem_of_cons in Hkey as [Hne Hkey]. unfold strv. simpl.
  destruct (String.eqb_spec s key) as [->|_]; [done|]. by apply IH.
Qed.

(** A key that the vector holds is found at a valid index. *)
Lemma find_key_strv_from_present (cursor : Z) (l : list string) (key : string) :
  key ∈ l → cursor ≤ find_key_strv_from cursor (strv l) key.
Proof.
  revert cursor. induction l as [|s l IH]; intros cursor Hkey.
  - by apply elem_of_nil in Hkey.
  - unfold strv. simpl. destruct (String.eqb_spec s key) as [->|Hne]; [lia|].
    apply elem_of_cons in Hkey as [->|Hkey]; [done|].
    apply Z.le_trans with (cursor + 1); [lia|]. exact (IH (cursor + 1) Hkey).
Qed.

(** C8. Name-to-id resolution.  The lookup in the table of sub-plugin names
    is exact, character by character: a name of the table yields the id that
    designates its entry.  A name that is not in the table yields
    [ML_NNFW_TYPE_SNAP] when [g_ascii_strcasecmp] finds it equal to ["snap"],
    and otherwise [ML_NNFW_TYPE_ANY] together with one warning in the log;
    in every case the function returns an id. *)
Theorem nnfw_type_by_subplugin_name (name : string) :
  (∀ nnfw, (nnfw, name) ∈ ml_nnfw_subplugin_name_init →
           _ml_get_nnfw_type_by_subplugin_name (Some name) = (nnfw, [])) ∧
  (name ∉ (snd <$> ml_nnfw_subplugin_name_init) →
   g_ascii_strcasecmp name "snap" = 0 →
   _ml_get_nnfw_type_by_subplugin_name (Some name) = (ML_NNFW_TYPE_SNAP, [])) ∧
  (name ∉ (snd <$> ml_nnfw_subplugin_name_init) →
   g_ascii_strcasecmp name "snap" ≠ 0 →
   _ml_get_nnfw_type_by_subplugin_name (Some name)
   = (ML_NNFW_TYPE_ANY,
      [{| log_at := LOGW; log_format := "Cannot find nnfw, %s is invalid name.";
          log_args := [name] |}])).
Proof.
  split; [|split].
  - intros nnfw Hin. unfold ml_nnfw_subplugin_name_init in Hin.
    repeat (apply elem_of_cons in Hin as [Hin|Hin];
            [injection Hin as -> ->; vm_compute; reflexivity|]).
    by apply elem_of_nil in Hin.
  - intros Hname Hsnap. unfold _ml_get_nnfw_type_by_subplugin_name.
    unfold find_key_strv, ml_nnfw_subplugin_name.
    rewrite find_key_strv_from_absent by done. simpl.
    by rewrite Hsnap.
  - intros Hname Hsnap. unfold _ml_get_nnfw_type_by_subplugin_name.
    unfold find_key_strv, ml_nnfw_subplugin_name.
    rewrite find_key_strv_from_absent by done. simpl.
    by destruct (Z.eqb_spec (g_ascii_strcasecmp name "snap") 0).
Qed.

End registry_facts.

Lemma nnfw_type_by_subplugin_name_witness :
  Registry._ml_get_nnfw_type_by_subplugin_name (Some "vd_aifw"%string)
  = (Registry.ML_NNFW_TYPE_VD_AIFW, []) ∧
  Registry._ml_get_nnfw_type_by_subplugin_name (Some "SNAP"%string)
  = (Registry.ML_NNFW_TYPE_SNAP, []) ∧
  Registry._ml_get_nnfw_type_by_subplugin_name (Some "totally-unknown-name"%string)
  = (Registry.ML_NNFW_TYPE_ANY,
     [{| log_at := LOGW;
         log_format := "Cannot find nnfw, %s is invalid name."%string;
         log_args := ["totally-unknown-name"%string] |}]).
Proof.
  split; [|split].
  - apply (proj1 (nnfw_type_by_subplugin_name "vd_aifw")).
    apply (bool_decide_unpack _). vm_compute. exact I.
  - apply (proj1 (proj2 (nnfw_type_by_subplugin_name "SNAP"))).
    + apply (bool_decide_unpack _). vm_compute. exact I.
    + vm_compute. reflexivity.
  - apply (proj2 (proj2 (nnfw_type_by_subplugin_name "totally-unknown-name"))).
    + apply (bool_decide_unpack _). vm_compute. exact I.
    + vm_compute. discriminate.
Defined.

(** ** Model validation *)

Section validator_facts.
Import CStr Registry Validator.
Local Open Scope string_scope.
Local Open Scope Z_scope.
Local Open Scope list_scope.
Context {env : environment}.

(** The existence checks pass only for an array that is there. *)
Lemma existence_checks_model (model : nullable (list (nullable string))) is_dir :
  (__ml_validate_model_file model is_dir).1.1 = ML_ERROR_NONE →
  ∃ model0 rest, model = Some (model0 :: rest).
Proof.
  destruct model as [[|model0 rest]|]; simpl; try discriminate. eauto.
Qed.

(** A first path that is a directory passes them at once. *)
Lemma existence_checks_directory model0 rest is_dir :
  g_file_test model0 G_FILE_TEST_IS_DIR = true →
  __ml_validate_model_file (Some (model0 :: rest)) is_dir = (ML_ERROR_NONE, true, []).
Proof. intros H. unfold __ml_validate_model_file. by rewrite H. Qed.

Lemma validate_regular_files_status (model : list (nullable string)) :
  (validate_regular_files model).1 = ML_ERROR_NONE ∨
  (validate_regular_files model).1 = ML_ERROR_INVALID_PARAMETER.
Proof.
  induction model as [|m model IH]; simpl; [by left|].
  destruct (_ || _); simpl; [by right|done].
Qed.

(** Regular files all have a name. *)
Lemma validate_regular_files_Some (model : list (nullable string)) :
  (validate_regular_files model).1 = ML_ERROR_NONE → Forall is_Some model.
Proof.
  induction model as [|m model IH]; simpl; [constructor|].
  destruct m as [m|]; simpl; [|discriminate].
  destruct (negb _); simpl; [discriminate|]. intros H. constructor; eauto.
Qed.

(** When the first path is no directory, the paths that pass the existence
    checks all have a name. *)
Lemma existence_checks_files model log :
  __ml_validate_model_file (Some model) false = (ML_ERROR_NONE, false, log) →
  Forall is_Some model.
Proof.
  unfold __ml_validate_model_file.
  destruct model as [|model0 rest]; [discriminate|].
  destruct (g_file_test model0 G_FILE_TEST_IS_DIR); [discriminate|].
  destruct (validate_regular_files (model0 :: rest)) as [status log'] eqn:Hreg.
  intros H. simplify_eq. apply validate_regular_files_Some. by rewrite Hreg.
Qed.

(** The extension loop stays inside defined behaviour on such paths. *)
Lemma validate_file_ext_defined (model : list (nullable string)) file_ext :
  Forall is_Some model → is_Some (validate_file_ext model file_ext).
Proof.
  intros H. revert file_ext. induction H as [|m model [m' ->] _ IH]; intros file_ext.
  - by eexists.
  - simpl. destruct (strrchr m' "."); [apply IH|by eexists].
Qed.

(** With an extension on every path, the loop collects them, lowered. *)
Lemma validate_file_ext_all (model : list (nullable string)) file_ext :
  Forall (λ m, ∃ m', m = Some m' ∧ is_Some (strrchr m' ".")) model →
  ∃ exts, validate_file_ext model file_ext = Some (inl (file_ext ++ exts)) ∧
          length exts = length model.
Proof.
  intros H. revert file_ext.
  induction H as [|m model (m' & -> & pos & Hpos) _ IH]; intros file_ext.
  - exists []. by rewrite app_nil_r.
  - simpl. rewrite Hpos. destruct (IH (file_ext ++ [g_ascii_strdown pos])) as (exts & -> & Hlen).
    exists (g_ascii_strdown pos :: exts). rewrite <- app_assoc. simpl. by rewrite Hlen.
Qed.

(** From the existence checks to the label [done]. *)
Lemma validate_reaches_done model is_dir log0 nnfw status nnfw' log2 :
  __ml_validate_model_file (Some model) false = (ML_ERROR_NONE, is_dir, log0) →
  validate_decide model is_dir nnfw (detected_framework model)
  = Some (status, nnfw', log2) →
  ∃ log, _ml_validate_model_file (Some model) (Some nnfw)
         = Some ((validate_done status nnfw').1, Some nnfw', log).
Proof.
  intros Hexist Hdecide. unfold _ml_validate_model_file. rewrite Hexist.
  rewrite decide_False by (intros H; by apply H). simpl.
  unfold detected_framework in Hdecide.
  destruct (_ml_get_nnfw_type_by_subplugin_name _) as [detected log1].
  simpl in Hdecide. rewrite Hdecide. simpl.
  destruct (validate_done status nnfw') as [status' log3]. simpl. eauto.
Qed.

(** What the loop collects are the lowered extensions of the paths, in
    order. *)
Lemma validate_file_ext_inl (model : list (nullable string)) file_ext exts :
  validate_file_ext model file_ext = Some (inl exts) →
  ∃ exts', exts = file_ext ++ exts' ∧
    Forall2 (λ m e, ∃ m' pos, m = Some m' ∧ strrchr m' "." = Some pos ∧
                              e = g_ascii_strdown pos) model exts'.
Proof.
  revert file_ext. induction model as [|m model IH]; intros file_ext; simpl.
  - intros [= <-]. exists []. by rewrite app_nil_r.
  - destruct m as [m'|]; [|discriminate]. simpl.
    destruct (strrchr m' ".") as [pos|] eqn:Hpos; [|discriminate].
    intros H. destruct (IH _ H) as (exts' & -> & Hall).
    exists (g_ascii_strdown pos :: exts'). rewrite <- app_assoc. split; [done|].
    constructor; [|done]. by exists m', pos.
Qed.

Lemma validate_file_ext_first (model : list (nullable string)) exts :
  validate_file_ext model [] = Some (inl exts) → model ≠ [] →
  ∃ model0 pos, model !! 0%nat = Some (Some model0) ∧
                strrchr model0 "." = Some pos ∧
                exts !! 0%nat = Some (g_ascii_strdown pos).
Proof.
  intros Hloop Hmodel.
  destruct (validate_file_ext_inl _ _ _ Hloop) as (exts' & -> & Hall).
  destruct Hall as [|m e model' exts' (model0 & pos & -> & Hpos & ->) _]; [done|].
  by exists model0, pos.
Qed.

Lemma validate_done_failed status nnfw :
  status ≠ ML_ERROR_NONE → (validate_done status nnfw).1 = status.
Proof. intros H. unfold validate_done. by rewrite decide_False. Qed.

Lemma validate_done_passed nnfw :
  (validate_done ML_ERROR_NONE nnfw).1
  = if _ml_nnfw_is_available nnfw ML_NNFW_HW_ANY
    then ML_ERROR_NONE else ML_ERROR_NOT_SUPPORTED.
Proof.
  unfold validate_done. rewrite decide_True by done.
  by destruct (_ml_nnfw_is_available nnfw ML_NNFW_HW_ANY).
Qed.

(** *** The claims on the validation *)

(** C4, as amended.  With the requested framework [ML_NNFW_TYPE_ANY] and a
    path set that passes the existence checks: when the detection resolves
    to a framework, that framework is written to [*nnfw], and the call
    succeeds if the framework is available and fails with
    [ML_ERROR_NOT_SUPPORTED] if it is not; when the detection stays at
    [ML_NNFW_TYPE_ANY], the call fails with [ML_ERROR_INVALID_PARAMETER] and
    [*nnfw] is unchanged. *)
Theorem auto_adoption_under_any (model : list (nullable string)) :
  (__ml_validate_model_file (Some model) false).1.1 = ML_ERROR_NONE →
  let detected := detected_framework model in
  let call := _ml_validate_model_file (Some model) (Some ML_NNFW_TYPE_ANY) in
  (detected ≠ ML_NNFW_TYPE_ANY →
   _ml_nnfw_is_available detected ML_NNFW_HW_ANY = true →
   ∃ log, call = Some (ML_ERROR_NONE, Some detected, log)) ∧
  (detected ≠ ML_NNFW_TYPE_ANY →
   _ml_nnfw_is_available detected ML_NNFW_HW_ANY = false →
   ∃ log, call = Some (ML_ERROR_NOT_SUPPORTED, Some detected, log)) ∧
  (detected = ML_NNFW_TYPE_ANY →
   ∃ log, call = Some (ML_ERROR_INVALID_PARAMETER, Some ML_NNFW_TYPE_ANY, log)).
Proof.
  intros Hexist detected call.
  destruct (__ml_validate_model_file (Some model) false) as [[status is_dir] log0]
    eqn:Hcheck.
  simpl in Hexist. subst status.
  split; [|split].
  - intros Hdet Havail.
    destruct (validate_reaches_done model is_dir log0 ML_NNFW_TYPE_ANY
                ML_ERROR_NONE detected
                (_ml_logi "The given model is supposed a %s model."
                   [GST_STR_NULL (_ml_get_nnfw_subplugin_name detected)]) Hcheck)
      as [log Hcall].
    { unfold validate_decide. rewrite decide_True by done.
      fold detected. by rewrite decide_False. }
    rewrite validate_done_passed, Havail in Hcall. eauto.
  - intros Hdet Havail.
    destruct (validate_reaches_done model is_dir log0 ML_NNFW_TYPE_ANY
                ML_ERROR_NONE detected
                (_ml_logi "The given model is supposed a %s model."
                   [GST_STR_NULL (_ml_get_nnfw_subplugin_name detected)]) Hcheck)
      as [log Hcall].
    { unfold validate_decide. rewrite decide_True by done.
      fold detected. by rewrite decide_False. }
    rewrite validate_done_passed, Havail in Hcall. eauto.
  - intros Hdet.
    destruct (validate_reaches_done model is_dir log0 ML_NNFW_TYPE_ANY
                ML_ERROR_INVALID_PARAMETER ML_NNFW_TYPE_ANY
                (_ml_loge "The given model has unknown or not supported extension." [])
                Hcheck)
      as [log Hcall].
    { unfold validate_decide. rewrite decide_True by done.
      fold detected. by rewrite decide_True. }
    rewrite validate_done_failed in Hcall by done. eauto.
Qed.

(** C5. Directory exclusivity: with a requested framework other than
    [ML_NNFW_TYPE_ANY] and [ML_NNFW_TYPE_NNFW] and a first path that is a
    directory, the call fails with [ML_ERROR_INVALID_PARAMETER], whatever
    the other paths, the detection and the availability are; [*nnfw] is
    unchanged. *)
Theorem directory_exclusivity (model0 : nullable string)
    (rest : list (nullable string)) (nnfw : ml_nnfw_type_e) :
  nnfw ≠ ML_NNFW_TYPE_ANY → nnfw ≠ ML_NNFW_TYPE_NNFW →
  g_file_test model0 G_FILE_TEST_IS_DIR = true →
  ∃ log, _ml_validate_model_file (Some (model0 :: rest)) (Some nnfw)
         = Some (ML_ERROR_INVALID_PARAMETER, Some nnfw, log).
Proof.
  intros Hany Hnnfw Hdir.
  destruct (validate_reaches_done (model0 :: rest) true [] nnfw
              ML_ERROR_INVALID_PARAMETER nnfw
              (_ml_loge "The given model is directory, check model and framework." []))
    as [log Hcall].
  { by apply existence_checks_directory. }
  { unfold validate_decide. rewrite decide_False by done.
    simpl. by rewrite bool_decide_true. }
  rewrite validate_done_failed in Hcall by done. eauto.
Qed.

(** C6, as amended.  When the existence checks fail, the call returns their
    error.  When they pass, control reaches the label [done] with the status
    of the earlier steps and the resolved framework: if an earlier step has
    failed, the call fails with the error of that step, unchanged, whether
    or not the framework is available; if the earlier steps left the status
    at [ML_ERROR_NONE], the call fails with [ML_ERROR_NOT_SUPPORTED] when the
    resolved framework is not available, and succeeds when it is. *)
Theorem final_availability_gate (model : nullable (list (nullable string)))
    (nnfw : ml_nnfw_type_e) status0 is_dir log0 :
  __ml_validate_model_file model false = (status0, is_dir, log0) →
  (status0 ≠ ML_ERROR_NONE →
   _ml_validate_model_file model (Some nnfw) = Some (status0, Some nnfw, log0)) ∧
  (status0 = ML_ERROR_NONE →
   ∀ models status resolved log2,
     model = Some models →
     validate_decide models is_dir nnfw (detected_framework models)
     = Some (status, resolved, log2) →
     (status ≠ ML_ERROR_NONE →
      ∃ log, _ml_validate_model_file model (Some nnfw)
             = Some (status, Some resolved, log)) ∧
     (status = ML_ERROR_NONE →
      _ml_nnfw_is_available resolved ML_NNFW_HW_ANY = false →
      ∃ log, _ml_validate_model_file model (Some nnfw)
             = Some (ML_ERROR_NOT_SUPPORTED, Some resolved, log)) ∧
     (status = ML_ERROR_NONE →
      _ml_nnfw_is_available resolved ML_NNFW_HW_ANY = true →
      ∃ log, _ml_validate_model_file model (Some nnfw)
             = Some (ML_ERROR_NONE, Some resolved, log))).
Proof.
  intros Hcheck. split.
  - intros Hfailed. unfold _ml_validate_model_file. rewrite Hcheck.
    by rewrite decide_True.
  - intros -> models status resolved log2 -> Hdecide.
    destruct (validate_reaches_done _ _ _ _ _ _ _ Hcheck Hdecide) as [log Hcall].
    split; [|split].
    + intros Hne. exists log. by rewrite Hcall, validate_done_failed.
    + intros -> Havail. exists log.
      by rewrite Hcall, validate_done_passed, Havail.
    + intros -> Havail. exists log.
      by rewrite Hcall, validate_done_passed, Havail.
Qed.

(** C7, as amended.  The call is for [ML_NNFW_TYPE_VD_AIFW], the paths pass
    the existence checks with a first path that is no directory, and the
    detection resolves to another framework or to none, so that control
    reaches the extension check.  Then a first path whose lowered extension
    is none of [.nb], [.ncp], [.bin] makes the call fail with
    [ML_ERROR_INVALID_PARAMETER]; and with a first path of lowered extension
    [.bin], every path of the set having an extension, the call succeeds if
    the framework is available and fails with [ML_ERROR_NOT_SUPPORTED] if it
    is not. *)
Theorem vd_aifw_extension_gate (model : list (nullable string)) log0 :
  let call := _ml_validate_model_file (Some model) (Some ML_NNFW_TYPE_VD_AIFW) in
  __ml_validate_model_file (Some model) false = (ML_ERROR_NONE, false, log0) →
  detected_framework model ≠ ML_NNFW_TYPE_VD_AIFW →
  ((∀ model0 pos, model !! 0%nat = Some (Some model0) →
                  strrchr model0 "." = Some pos →
                  g_ascii_strdown pos ∉ [".nb"; ".ncp"; ".bin"]) →
   ∃ log, call = Some (ML_ERROR_INVALID_PARAMETER, Some ML_NNFW_TYPE_VD_AIFW, log)) ∧
  ((∃ model0 pos, model !! 0%nat = Some (Some model0) ∧
                  strrchr model0 "." = Some pos ∧
                  g_ascii_strdown pos = ".bin") →
   Forall (λ m, ∃ m', m = Some m' ∧ is_Some (strrchr m' ".")) model →
   ∃ log, call = Some (if _ml_nnfw_is_available ML_NNFW_TYPE_VD_AIFW ML_NNFW_HW_ANY
                       then ML_ERROR_NONE else ML_ERROR_NOT_SUPPORTED,
                       Some ML_NNFW_TYPE_VD_AIFW, log)).
Proof.
  intros call Hcheck Hdet.
  assert (model ≠ []) as Hmodel.
  { intros ->. unfold __ml_validate_model_file in Hcheck. discriminate. }
  split.
  - intros Hext.
    pose proof (existence_checks_files _ _ Hcheck) as Hnames.
    destruct (validate_file_ext_defined model [] Hnames) as [[exts|m] Hloop].
    + destruct (validate_file_ext_first _ _ Hloop Hmodel)
        as (model0 & pos & Hfirst & Hpos & Hext0).
      specialize (Hext model0 pos Hfirst Hpos).
      apply not_elem_of_cons in Hext as [Hnb Hext].
      apply not_elem_of_cons in Hext as [Hncp Hext].
      apply not_elem_of_cons in Hext as [Hbin _].
      destruct (validate_reaches_done _ _ _ ML_NNFW_TYPE_VD_AIFW
                  ML_ERROR_INVALID_PARAMETER ML_NNFW_TYPE_VD_AIFW [] Hcheck)
        as [log Hcall].
      { unfold validate_decide. rewrite decide_False by done. simpl.
        rewrite decide_False by done. rewrite Hloop. simpl.
        rewrite Hext0. simpl. unfold g_str_equal.
        apply String.eqb_neq in Hnb, Hncp, Hbin. by rewrite Hnb, Hncp, Hbin. }
      rewrite validate_done_failed in Hcall by done. eauto.
    + destruct (validate_reaches_done _ _ _ ML_NNFW_TYPE_VD_AIFW
                  ML_ERROR_INVALID_PARAMETER ML_NNFW_TYPE_VD_AIFW
                  (_ml_loge "The given model [%s] has invalid extension." [m]) Hcheck)
        as [log Hcall].
      { unfold validate_decide. rewrite decide_False by done. simpl.
        rewrite decide_False by done. by rewrite Hloop. }
      rewrite validate_done_failed in Hcall by done. eauto.
  - intros (model0 & pos & Hfirst & Hpos & Hbin) Hexts.
    destruct (validate_file_ext_all model [] Hexts) as (exts & Hloop & _).
    simpl in Hloop.
    destruct (validate_file_ext_first _ _ Hloop Hmodel)
      as (model0' & pos' & Hfirst' & Hpos' & Hext0).
    rewrite Hfirst in Hfirst'. injection Hfirst' as <-.
    rewrite Hpos in Hpos'. injection Hpos' as <-.
    destruct (validate_reaches_done _ _ _ ML_NNFW_TYPE_VD_AIFW
                ML_ERROR_NONE ML_NNFW_TYPE_VD_AIFW [] Hcheck)
      as [log Hcall].
    { unfold validate_decide. rewrite decide_False by done. simpl.
      rewrite decide_False by done. rewrite Hloop. simpl.
      rewrite Hext0. simpl. by rewrite Hbin. }
    rewrite validate_done_passed in Hcall. eauto.
Qed.

End validator_facts.

(** The claims on the validation at concrete calls. *)

Section validator_examples.
Import CStr Registry Validator.
Local Open Scope string_scope.
Local Open Scope list_scope.

(** C4 as stated fails: the detection resolves ["model.tflite"] to
    TensorFlow Lite, which is written to [*nnfw], but the framework is not
    available and the call returns [ML_ERROR_NOT_SUPPORTED]. *)
Lemma auto_adoption_counterexample :
  let env := example_environment [] in
  let model := [Some "model.tflite"] in
  (@__ml_validate_model_file env (Some model) false).1.1 = ML_ERROR_NONE ∧
  @detected_framework env model = ML_NNFW_TYPE_TENSORFLOW_LITE ∧
  @_ml_validate_model_file env (Some model) (Some ML_NNFW_TYPE_ANY)
  = Some (ML_ERROR_NOT_SUPPORTED, Some ML_NNFW_TYPE_TENSORFLOW_LITE,
          _ml_logi "The given model is supposed a %s model." ["tensorflow-lite"]
          ++ _ml_loge "%s is not available." ["tensorflow-lite"]) ∧
  ¬ ∃ log, @_ml_validate_model_file env (Some model) (Some ML_NNFW_TYPE_ANY)
           = Some (ML_ERROR_NONE, Some ML_NNFW_TYPE_TENSORFLOW_LITE, log).
Proof.
  intros env model. split; [reflexivity|]. split; [reflexivity|].
  split; [reflexivity|]. intros [log H]. vm_compute in H. discriminate.
Qed.

Lemma auto_adoption_under_any_witness :
  ∃ log, @_ml_validate_model_file (example_environment [ML_NNFW_TYPE_TENSORFLOW_LITE])
           (Some [Some "model.tflite"]) (Some ML_NNFW_TYPE_ANY)
         = Some (ML_ERROR_NONE, Some ML_NNFW_TYPE_TENSORFLOW_LITE, log).
Proof.
  apply (proj1 (@auto_adoption_under_any
                  (example_environment [ML_NNFW_TYPE_TENSORFLOW_LITE])
                  [Some "model.tflite"] eq_refl)).
  - vm_compute. discriminate.
  - reflexivity.
Defined.

Lemma directory_exclusivity_witness :
  ∃ log, @_ml_validate_model_file (example_environment [ML_NNFW_TYPE_TENSORFLOW_LITE])
           (Some [Some "model_dir"; Some "weights"]) (Some ML_NNFW_TYPE_TENSORFLOW_LITE)
         = Some (ML_ERROR_INVALID_PARAMETER, Some ML_NNFW_TYPE_TENSORFLOW_LITE, log).
Proof.
  apply (@directory_exclusivity (example_environment [ML_NNFW_TYPE_TENSORFLOW_LITE])
           (Some "model_dir") [Some "weights"] ML_NNFW_TYPE_TENSORFLOW_LITE).
  - discriminate.
  - discriminate.
  - reflexivity.
Defined.

(** C6 as stated fails: the requested framework is not available, but an
    earlier step has failed (["model.onnx"] has none of the extensions of
    [ML_NNFW_TYPE_VD_AIFW]) and the call returns that step's
    [ML_ERROR_INVALID_PARAMETER], not [ML_ERROR_NOT_SUPPORTED]. *)
Lemma final_availability_gate_counterexample :
  let env := example_environment [] in
  let model := [Some "model.onnx"] in
  @_ml_nnfw_is_available env ML_NNFW_TYPE_VD_AIFW ML_NNFW_HW_ANY = false ∧
  @_ml_validate_model_file env (Some model) (Some ML_NNFW_TYPE_VD_AIFW)
  = Some (ML_ERROR_INVALID_PARAMETER, Some ML_NNFW_TYPE_VD_AIFW,
          _ml_loge "The given model file is invalid." []) ∧
  ¬ ∃ resolved log,
      @_ml_validate_model_file env (Some model) (Some ML_NNFW_TYPE_VD_AIFW)
      = Some (ML_ERROR_NOT_SUPPORTED, resolved, log).
Proof.
  intros env model. split; [reflexivity|]. split; [reflexivity|].
  intros (resolved & log & H). vm_compute in H. discriminate.
Qed.

Lemma final_availability_gate_witness :
  @_ml_validate_model_file (example_environment [])
    (Some [Some "missing.tflite"]) (Some ML_NNFW_TYPE_TENSORFLOW_LITE)
  = Some (ML_ERROR_INVALID_PARAMETER, Some ML_NNFW_TYPE_TENSORFLOW_LITE,
          _ml_loge "The given param, model path [%s] is invalid or not given."
                   ["missing.tflite"]) ∧
  (∃ log, @_ml_validate_model_file (example_environment [ML_NNFW_TYPE_VD_AIFW])
            (Some [Some "model.onnx"]) (Some ML_NNFW_TYPE_VD_AIFW)
          = Some (ML_ERROR_INVALID_PARAMETER, Some ML_NNFW_TYPE_VD_AIFW, log)) ∧
  (∃ log, @_ml_validate_model_file (example_environment [])
            (Some [Some "model.tflite"]) (Some ML_NNFW_TYPE_TENSORFLOW_LITE)
          = Some (ML_ERROR_NOT_SUPPORTED, Some ML_NNFW_TYPE_TENSORFLOW_LITE, log)) ∧
  (∃ log, @_ml_validate_model_file (example_environment [ML_NNFW_TYPE_TENSORFLOW_LITE])
            (Some [Some "model.tflite"]) (Some ML_NNFW_TYPE_TENSORFLOW_LITE)
          = Some (ML_ERROR_NONE, Some ML_NNFW_TYPE_TENSORFLOW_LITE, log)).
Proof.
  split; [|split; [|split]].
  - apply (proj1 (@final_availability_gate (example_environment [])
                    (Some [Some "missing.tflite"]) ML_NNFW_TYPE_TENSORFLOW_LITE
                    _ _ _ eq_refl)).
    discriminate.
  - apply (proj1 (proj2 (@final_availability_gate
                           (example_environment [ML_NNFW_TYPE_VD_AIFW])
                           (Some [Some "model.onnx"]) ML_NNFW_TYPE_VD_AIFW
                           _ _ _ eq_refl)
                    eq_refl [Some "model.onnx"] ML_ERROR_INVALID_PARAMETER
                    ML_NNFW_TYPE_VD_AIFW [] eq_refl eq_refl)).
    discriminate.
  - apply (proj1 (proj2 (proj2 (@final_availability_gate (example_environment [])
                                  (Some [Some "model.tflite"])
                                  ML_NNFW_TYPE_TENSORFLOW_LITE
                                  _ _ _ eq_refl)
                           eq_refl [Some "model.tflite"] ML_ERROR_NONE
                           ML_NNFW_TYPE_TENSORFLOW_LITE [] eq_refl eq_refl))).
    + reflexivity.
    + reflexivity.
  - apply (proj2 (proj2 (proj2 (@final_availability_gate
                                  (example_environment [ML_NNFW_TYPE_TENSORFLOW_LITE])
                                  (Some [Some "model.tflite"])
                                  ML_NNFW_TYPE_TENSORFLOW_LITE
                                  _ _ _ eq_refl)
                           eq_refl [Some "model.tflite"] ML_ERROR_NONE
                           ML_NNFW_TYPE_TENSORFLOW_LITE [] eq_refl eq_refl))).
    + reflexivity.
    + reflexivity.
Defined.

(** C7 as stated fails: the first path has the extension [.bin] and the
    framework is available, but the second path has no extension and the
    call returns [ML_ERROR_INVALID_PARAMETER]. *)
Lemma vd_aifw_extension_gate_counterexample :
  let env := example_environment [ML_NNFW_TYPE_VD_AIFW] in
  let model := [Some "model.bin"; Some "weights"] in
  @__ml_validate_model_file env (Some model) false = (ML_ERROR_NONE, false, []) ∧
  @detected_framework env model = ML_NNFW_TYPE_ANY ∧
  g_ascii_strdown <$> strrchr "model.bin" "." = Some ".bin" ∧
  @_ml_nnfw_is_available env ML_NNFW_TYPE_VD_AIFW ML_NNFW_HW_ANY = true ∧
  @_ml_validate_model_file env (Some model) (Some ML_NNFW_TYPE_VD_AIFW)
  = Some (ML_ERROR_INVALID_PARAMETER, Some ML_NNFW_TYPE_VD_AIFW,
          _ml_loge "The given model [%s] has invalid extension." ["weights"]
          ++ _ml_loge "The given model file is invalid." []) ∧
  ¬ ∃ log, @_ml_validate_model_file env (Some model) (Some ML_NNFW_TYPE_VD_AIFW)
           = Some (ML_ERROR_NONE, Some ML_NNFW_TYPE_VD_AIFW, log).
Proof.
  intros env model. repeat (split; [reflexivity|]).
  intros [log H]. vm_compute in H. discriminate.
Qed.

Lemma vd_aifw_extension_gate_witness :
  let env := example_environment [ML_NNFW_TYPE_VD_AIFW] in
  (∃ log, @_ml_validate_model_file env (Some [Some "model.onnx"])
            (Some ML_NNFW_TYPE_VD_AIFW)
          = Some (ML_ERROR_INVALID_PARAMETER, Some ML_NNFW_TYPE_VD_AIFW, log)) ∧
  (∃ log, @_ml_validate_model_file env (Some [Some "model.bin"])
            (Some ML_NNFW_TYPE_VD_AIFW)
          = Some (ML_ERROR_NONE, Some ML_NNFW_TYPE_VD_AIFW, log)).
Proof.
  intros env. split.
  - apply (proj1 (@vd_aifw_extension_gate env [Some "model.onnx"] []
                    eq_refl ltac:(vm_compute; discriminate))).
    intros model0 pos [= <-] [= <-]. apply (bool_decide_unpack _).
    vm_compute. exact I.
  - apply (proj2 (@vd_aifw_extension_gate env [Some "model.bin"] []
                    eq_refl ltac:(vm_compute; discriminate))).
    + exists "model.bin", ".bin". repeat split.
    + repeat constructor. exists "model.bin". split; [reflexivity|]. by eexists.
Defined.

End validator_examples.

(** ** Element availability *)

Section gate_facts.
Import CStr Gate.
Local Open Scope string_scope.
Local Open Scope Z_scope.
Local Open Scope list_scope.
Context {env : environment}.

(** A call with both names loads the list if it is not loaded yet, and
    leaves the statics as they are otherwise. *)
Lemma check_plugin_availability_statics plugin_name element_name st :
  statics_reachable st →
  (_ml_check_plugin_availability (Some plugin_name) (Some element_name) st).1.2
  = statics_loaded.
Proof.
  intros [-> | ->]; unfold _ml_check_plugin_availability, statics_loaded; simpl.
  - destruct (nnsconf_get_custom_value_bool _ _ _);
      [destruct (nnsconf_get_custom_value_string _ _)|]; simpl;
      repeat case_match; done.
  - repeat case_match; done.
Qed.

(** The decision, once the list is loaded. *)
Lemma check_plugin_availability_status plugin_name element_name st :
  statics_reachable st →
  (_ml_check_plugin_availability (Some plugin_name) (Some element_name) st).1.1
  = if g_str_has_prefix plugin_name "nnstreamer" &&
       g_str_has_prefix element_name "tensor_"
    then ML_ERROR_NONE
    else match restricted_elements statics_loaded with
         | Some elements =>
             if find_key_strv elements element_name <? 0
             then ML_ERROR_NOT_SUPPORTED else ML_ERROR_NONE
         | NULL => ML_ERROR_NONE
         end.
Proof.
  intros [-> | ->]; unfold _ml_check_plugin_availability, statics_loaded; simpl.
  - destruct (nnsconf_get_custom_value_bool _ _ _);
      [destruct (nnsconf_get_custom_value_string _ _)|]; simpl;
      repeat case_match; done.
  - repeat case_match; done.
Qed.

(** C10. Restriction enabled without a list: when the configuration enables
    the restriction but holds no [restricted_elements] value, the list
    pointer stays null once loaded, and the check allows every element of
    every plugin. *)
Theorem restriction_without_list_allows_all (plugin_name element_name : string)
    (st : statics) :
  nnsconf_get_custom_value_bool "element-restriction"
    "enable_element_restriction" false = true →
  nnsconf_get_custom_value_string "element-restriction"
    "restricted_elements" = NULL →
  statics_reachable st →
  ∃ log, _ml_check_plugin_availability (Some plugin_name) (Some element_name) st
         = (ML_ERROR_NONE,
            {| list_loaded := true; restricted_elements := NULL |}, log).
Proof.
  intros Henabled Hlist Hst.
  pose proof (check_plugin_availability_statics plugin_name element_name st Hst) as H1.
  pose proof (check_plugin_availability_status plugin_name element_name st Hst) as H2.
  unfold statics_loaded in H1, H2. rewrite Henabled, Hlist in H1, H2.
  destruct (_ml_check_plugin_availability _ _ st) as [[status st'] log].
  simpl in H1, H2. subst st'. exists log. do 2 f_equal.
  rewrite H2. by destruct (_ && _).
Qed.

(** C9. Exclusion by the restriction is not an error of the public
    function: for an element that exists and belongs to a plugin outside the
    [nnstreamer] family, with the restriction enabled and a list that does
    not hold the element's name, [ml_check_element_availability] returns
    [ML_ERROR_NONE] and sets [*available] to [false]. *)
Theorem restriction_exclusion_is_not_an_error (element_name : string)
    (available : bool) (st : statics) (factory : GstElementFactory)
    (plugin_name elements : string) :
  feature_state = ML_ERROR_NONE →
  gst_init_check.1 = true →
  gst_element_factory_find element_name = Some factory →
  gst_plugin_feature_get_plugin_name factory = Some plugin_name →
  g_str_has_prefix plugin_name "nnstreamer" = false →
  nnsconf_get_custom_value_bool "element-restriction"
    "enable_element_restriction" false = true →
  nnsconf_get_custom_value_string "element-restriction"
    "restricted_elements" = Some elements →
  element_name ∉ g_strsplit_set elements " ,;" →
  statics_reachable st →
  ∃ st' log, ml_check_element_availability (Some element_name) (Some available) st
             = (ML_ERROR_NONE, Some false, st', log).
Proof.
  intros Hfeature Hinit Hfind Hplugin Hprefix Henabled Hlist Habsent Hst.
  pose proof (check_plugin_availability_status plugin_name element_name st Hst) as H.
  unfold statics_loaded in H. rewrite Henabled, Hlist, Hprefix in H.
  cbn [restricted_elements andb] in H.
  unfold find_key_strv in H. rewrite find_key_strv_from_absent in H by done.
  change (-1 <? 0) with true in H. cbv iota in H.
  unfold ml_check_element_availability.
  rewrite decide_False by (intros Hne; by apply Hne).
  unfold _ml_initialize_gstreamer.
  destruct gst_init_check as [ok err]. simpl in Hinit. subst ok. simpl.
  rewrite Hfind, Hplugin.
  destruct (_ml_check_plugin_availability _ _ st) as [[status st'] log].
  simpl in H. subst status. simpl. eauto.
Qed.

End gate_facts.

(** The claims on the gate at concrete calls. *)

Lemma restriction_without_list_allows_all_witness :
  ∃ log, @Gate._ml_check_plugin_availability (Gate.example_environment true NULL)
           (Some "thirdparty"%string) (Some "third_party_x"%string) Gate.statics_init
         = (ML_ERROR_NONE,
            {| Gate.list_loaded := true; Gate.restricted_elements := NULL |}, log).
Proof.
  apply (@restriction_without_list_allows_all (Gate.example_environment true NULL)
           "thirdparty" "third_party_x" Gate.statics_init).
  - reflexivity.
  - reflexivity.
  - left. reflexivity.
Defined.

Lemma restriction_exclusion_is_not_an_error_witness :
  ∃ st' log,
    @Gate.ml_check_element_availability
      (Gate.example_environment true (Some "videoconvert,appsrc appsink"%string))
      (Some "third_party_x"%string) (Some true) Gate.statics_init
    = (ML_ERROR_NONE, Some false, st', log).
Proof.
  apply (@restriction_exclusion_is_not_an_error
           (Gate.example_environment true (Some "videoconvert,appsrc appsink"%string))
           "third_party_x" true Gate.statics_init
           {| Gate.gst_plugin_feature_get_plugin_name := Some "thirdparty"%string |}
           "thirdparty" "videoconvert,appsrc appsink").
  - reflexivity.
  - reflexivity.
  - reflexivity.
  - reflexivity.
  - reflexivity.
  - reflexivity.
  - reflexivity.
  - apply (bool_decide_unpack _). vm_compute. exact I.
  - left. reflexivity.
Defined.

(** * Further properties of the code *)

(** ** The converter, beyond the claims *)

Section tensors_more.
Import Tensors.
Context {hd : headers}.

Lemma copy_from_gst_type_enumerator (t : Z) :
  copy_from_gst_type t ∈ ml_tensor_type_e.
Proof.
  unfold copy_from_gst_type, ml_tensor_type_e, ml_known_types.
  repeat case_match; simpl; repeat (first [by left | right]).
Qed.

Lemma copy_from_ml_type_enumerator (t : Z) :
  copy_from_ml_type t ∈ tensor_type.
Proof.
  unfold copy_from_ml_type, tensor_type, nns_known_types.
  repeat case_match; simpl; repeat (first [by left | right]).
Qed.

Lemma type_round_trip_gst (t : Z) :
  headers_wf → t ∈ tensor_type →
  copy_from_ml_type (copy_from_gst_type t) = t.
Proof.
  intros Hhd Ht. unfold tensor_type in Ht.
  apply elem_of_app in Ht as [Ht|Ht].
  - apply list_elem_of_lookup in Ht as [i Hi].
    destruct (Forall2_lookup_l _ _ _ _ _ (copy_from_gst_type_known Hhd) Hi)
      as (s & Hs & ->).
    destruct (Forall2_lookup_l _ _ _ _ _ (copy_from_ml_type_known Hhd) Hs)
      as (t' & Ht' & ->).
    congruence.
  - apply list_elem_of_singleton in Ht as ->.
    rewrite copy_from_gst_type_default by by apply nns_end_not_known.
    apply copy_from_ml_type_default. by apply ml_unknown_not_known.
Qed.

(** Truncating to [m] slots and padding with [1], there and back. *)
Lemma take_pad_round_trip (m a : nat) (dimension : list Z) :
  (m ≤ length dimension)%nat →
  rank_at_most m dimension →
  take m (take m dimension ++ replicate (a - m) 1)
  ++ replicate (length dimension - m) 1 = dimension.
Proof.
  intros Hle Hrank.
  assert (length (take m dimension) = m) as Htake
    by (rewrite length_take; lia).
  rewrite take_app_le by lia. rewrite take_take, Nat.min_id.
  rewrite <- (take_drop m dimension) at 3. f_equal.
  apply list_eq. intros j. rewrite lookup_drop.
  destruct (decide (j < length dimension - m)%nat).
  - rewrite Hrank by lia. apply lookup_replicate. done.
  - rewrite !lookup_ge_None_2; [done|lia|rewrite length_replicate; lia].
Qed.

(** The slots below [m] survive truncation and padding. *)
Lemma take_take_pad (m a : nat) (dimension : list Z) :
  (m ≤ length dimension)%nat →
  take m (take m dimension ++ replicate a 1) = take m dimension.
Proof.
  intros Hle.
  assert (length (take m dimension) = m) as Htake
    by (rewrite length_take; lia).
  rewrite take_app_le by lia. by rewrite take_take, Nat.min_id.
Qed.

Lemma copy_from_ml_slot_stable (t : ml_tensor_info_s) :
  headers_wf → length (ml_dimension t) = ML_TENSOR_RANK_LIMIT →
  copy_from_ml_slot (copy_from_gst_slot (copy_from_ml_slot t)) = copy_from_ml_slot t.
Proof.
  intros Hhd Hlen. unfold copy_from_ml_slot, copy_from_gst_slot. simpl.
  f_equal.
  - apply type_round_trip_gst; [done|]. apply copy_from_ml_type_enumerator.
  - pose proof max_dim_le_ml.
    by rewrite !(take_take_pad _ _ (ml_dimension t)) by lia.
Qed.

Lemma copy_from_gst_slot_stable (t : GstTensorInfo) :
  headers_wf → length (gst_dimension t) = NNS_TENSOR_RANK_LIMIT →
  copy_from_gst_slot (copy_from_ml_slot (copy_from_gst_slot t)) = copy_from_gst_slot t.
Proof.
  intros Hhd Hlen. unfold copy_from_ml_slot, copy_from_gst_slot. simpl.
  f_equal.
  - apply type_round_trip; [done|]. apply copy_from_gst_type_enumerator.
  - pose proof max_dim_le_nns.
    by rewrite !(take_take_pad _ _ (gst_dimension t)) by lia.
Qed.

(** X1. Round trip from the internal side: an internal descriptor set whose
    tensors have rank at most [MIN (ML_TENSOR_RANK_LIMIT,
    NNS_TENSOR_RANK_LIMIT)] and whose tags are values of [tensor_type] is
    converted to the public representation and back without a change in
    its count and in its tensor slots. *)
Theorem round_trip_from_gst_from_ml
    (d : ml_tensors_info_s) (d' : GstTensorsInfo) (g : GstTensorsInfo) :
  headers_wf →
  gst_tensors_info_wf g → (gst_num_tensors g ≤ ML_TENSOR_SIZE_LIMIT)%nat →
  (∀ i t, (i < gst_num_tensors g)%nat → gst_tensor_info g !! i = Some t →
          gst_type t ∈ tensor_type ∧ rank_at_most max_dim (gst_dimension t)) →
  ∃ y g',
    _ml_tensors_info_copy_from_gst (Some d) (Some g) = Some (Some y) ∧
    _ml_tensors_info_copy_from_ml (Some d') (Some y) = Some (Some g') ∧
    gst_num_tensors g' = gst_num_tensors g ∧
    ∀ i, (i < gst_num_tensors g)%nat → gst_tensor_info g' !! i = gst_tensor_info g !! i.
Proof.
  intros Hhd Hg Hgn Hrank.
  destruct (copy_from_gst_slots d g Hg Hgn) as (y & Hy & Hynum & Hywf & Hyslots).
  destruct Hg as (Hlen & Hn & Hdims).
  destruct (copy_from_ml_slots d' y Hywf) as (g' & Hg' & Hgnum & _ & Hgslots);
    [lia|].
  exists y, g'. split; [done|]. split; [done|]. split; [congruence|].
  intros i Hi.
  destruct (lookup_lt_is_Some_2 (gst_tensor_info g) i) as [t Ht]; [lia|].
  rewrite Ht. rewrite (Hgslots i (copy_from_gst_slot t)); cycle 1.
  { lia. } { by apply Hyslots. }
  destruct (Hrank i t Hi Ht) as [Htype Hr].
  rewrite Forall_lookup in Hdims. specialize (Hdims i t Ht).
  f_equal. destruct t as [name type dimension]. simpl in *.
  unfold copy_from_gst_slot, copy_from_ml_slot. simpl.
  rewrite type_round_trip_gst by done. f_equal.
  pose proof max_dim_le_nns as Hle. rewrite <- Hdims in Hle |- *.
  by apply take_pad_round_trip.
Qed.

(** X2. One conversion settles the descriptor set: whatever the ranks and
    tags of a public set, converting it to the internal representation,
    back, and to the internal representation again yields the very set the
    first conversion gave; and the same from the internal side.  What a
    conversion loses, it loses the first time. *)
Theorem conversion_settles
    (d : ml_tensors_info_s) (d' : GstTensorsInfo)
    (x : ml_tensors_info_s) (g : GstTensorsInfo) :
  headers_wf →
  ml_tensors_info_wf x → (ml_num_tensors x ≤ NNS_TENSOR_SIZE_LIMIT)%nat →
  gst_tensors_info_wf g → (gst_num_tensors g ≤ ML_TENSOR_SIZE_LIMIT)%nat →
  (∃ g1 y1,
     _ml_tensors_info_copy_from_ml (Some d') (Some x) = Some (Some g1) ∧
     _ml_tensors_info_copy_from_gst (Some d) (Some g1) = Some (Some y1) ∧
     _ml_tensors_info_copy_from_ml (Some d') (Some y1) = Some (Some g1)) ∧
  (∃ y1 g1,
     _ml_tensors_info_copy_from_gst (Some d) (Some g) = Some (Some y1) ∧
     _ml_tensors_info_copy_from_ml (Some d') (Some y1) = Some (Some g1) ∧
     _ml_tensors_info_copy_from_gst (Some d) (Some g1) = Some (Some y1)).
Proof.
  intros Hhd Hx Hxn Hg Hgn. split.
  - destruct (copy_from_ml_slots d' x Hx Hxn) as (g1 & Hg1 & Hg1n & Hg1wf & _).
    destruct (copy_from_gst_slots d g1 Hg1wf) as (y1 & Hy1 & Hy1n & Hy1wf & _).
    { destruct Hx as (_ & ? & _). lia. }
    exists g1, y1. split; [done|]. split; [done|].
    rewrite copy_from_ml_spec by (done || lia).
    rewrite copy_from_gst_spec in Hy1 by (done || destruct Hx as (_ & ? & _); lia).
    rewrite copy_from_ml_spec in Hg1 by done.
    injection Hy1 as <-. injection Hg1 as <-. simpl.
    do 3 f_equal.
    destruct Hx as (Hlen & Hn & Hdims).
    assert (length (take (ml_num_tensors x) (ml_tensor_info x)) = ml_num_tensors x)
      as Htake by (rewrite length_take; lia).
    rewrite (take_app_length' (copy_from_ml_slot <$> _))
      by (by rewrite length_fmap).
    rewrite (take_app_length' (copy_from_gst_slot <$> _))
      by (by rewrite !length_fmap).
    rewrite <- !list_fmap_compose. f_equal. apply list_fmap_ext.
    intros i t Ht. simpl. apply copy_from_ml_slot_stable; [done|].
    apply lookup_take_Some in Ht as [Ht _].
    rewrite Forall_lookup in Hdims. by eapply Hdims.
  - destruct (copy_from_gst_slots d g Hg Hgn) as (y1 & Hy1 & Hy1n & Hy1wf & _).
    destruct (copy_from_ml_slots d' y1 Hy1wf) as (g1 & Hg1 & Hg1n & Hg1wf & _).
    { destruct Hg as (_ & ? & _). lia. }
    exists y1, g1. split; [done|]. split; [done|].
    rewrite copy_from_gst_spec by (done || lia).
    rewrite copy_from_ml_spec in Hg1 by (done || destruct Hg as (_ & ? & _); lia).
    rewrite copy_from_gst_spec in Hy1 by done.
    injection Hg1 as <-. injection Hy1 as <-. simpl.
    do 3 f_equal.
    destruct Hg as (Hlen & Hn & Hdims).
    assert (length (take (gst_num_tensors g) (gst_tensor_info g)) = gst_num_tensors g)
      as Htake by (rewrite length_take; lia).
    rewrite (take_app_length' (copy_from_gst_slot <$> _))
      by (by rewrite length_fmap).
    rewrite (take_app_length' (copy_from_ml_slot <$> _))
      by (by rewrite !length_fmap).
    rewrite <- !list_fmap_compose. f_equal. apply list_fmap_ext.
    intros i t Ht. simpl. apply copy_from_gst_slot_stable; [done|].
    apply lookup_take_Some in Ht as [Ht _].
    rewrite Forall_lookup in Hdims. by eapply Hdims.
Qed.

(** X3. No stale slot survives: after a conversion, every slot of the
    destination from index [num_tensors] on is as the initialisation at the
    head of the function leaves it; the loop does not touch it, whatever
    the destination held before and whatever the source holds beyond its
    count. *)
Theorem conversion_resets_unused_slots
    (d : ml_tensors_info_s) (g : GstTensorsInfo)
    (d' : GstTensorsInfo) (x : ml_tensors_info_s) :
  gst_tensors_info_wf g → (gst_num_tensors g ≤ ML_TENSOR_SIZE_LIMIT)%nat →
  ml_tensors_info_wf x → (ml_num_tensors x ≤ NNS_TENSOR_SIZE_LIMIT)%nat →
  (∃ y, _ml_tensors_info_copy_from_gst (Some d) (Some g) = Some (Some y) ∧
        ∀ i, (gst_num_tensors g ≤ i)%nat →
             ml_tensor_info y !! i
             = ml_tensor_info _ml_tensors_info_initialize !! i) ∧
  (∃ g', _ml_tensors_info_copy_from_ml (Some d') (Some x) = Some (Some g') ∧
         ∀ i, (ml_num_tensors x ≤ i)%nat →
              gst_tensor_info g' !! i
              = gst_tensor_info gst_tensors_info_init !! i).
Proof.
  intros Hg Hgn Hx Hxn. split.
  - eexists. split; [by apply copy_from_gst_spec|]. simpl. intros i Hi.
    destruct Hg as (Hlen & Hn & _).
    rewrite lookup_app_r; rewrite length_fmap, length_take; [|lia].
    rewrite lookup_drop. f_equal. lia.
  - eexists. split; [by apply copy_from_ml_spec|]. simpl. intros i Hi.
    destruct Hx as (Hlen & Hn & _).
    rewrite lookup_app_r; rewrite length_fmap, length_take; [|lia].
    rewrite lookup_drop. f_equal. lia.
Qed.

(** X4. What a conversion returns is a well-formed descriptor set of the
    destination representation: the arrays have their declared lengths, the
    count fits, and every slot, converted or not, carries a tag that is an
    enumerator of the destination's enumeration, whatever integer the
    source carried. *)
Theorem conversion_result_well_formed
    (d : ml_tensors_info_s) (g : GstTensorsInfo)
    (d' : GstTensorsInfo) (x : ml_tensors_info_s) :
  gst_tensors_info_wf g → (gst_num_tensors g ≤ ML_TENSOR_SIZE_LIMIT)%nat →
  ml_tensors_info_wf x → (ml_num_tensors x ≤ NNS_TENSOR_SIZE_LIMIT)%nat →
  (∃ y, _ml_tensors_info_copy_from_gst (Some d) (Some g) = Some (Some y) ∧
        ml_tensors_info_wf y ∧
        Forall (λ t, ml_type t ∈ ml_tensor_type_e) (ml_tensor_info y)) ∧
  (∃ g', _ml_tensors_info_copy_from_ml (Some d') (Some x) = Some (Some g') ∧
         gst_tensors_info_wf g' ∧
         Forall (λ t, gst_type t ∈ tensor_type) (gst_tensor_info g')).
Proof.
  intros Hg Hgn Hx Hxn. split.
  - destruct (copy_from_gst_slots d g Hg Hgn) as (y & Hy & _ & Hwf & _).
    exists y. split; [done|]. split; [done|].
    rewrite copy_from_gst_spec in Hy by done. injection Hy as <-. simpl.
    apply Forall_app. split.
    + apply Forall_fmap, Forall_forall. intros t _. simpl.
      apply copy_from_gst_type_enumerator.
    + apply Forall_drop, Forall_replicate. simpl.
      unfold ml_tensor_type_e. apply elem_of_app. right. constructor.
  - destruct (copy_from_ml_slots d' x Hx Hxn) as (g' & Hg' & _ & Hwf & _).
    exists g'. split; [done|]. split; [done|].
    rewrite copy_from_ml_spec in Hg' by done. injection Hg' as <-. simpl.
    apply Forall_app. split.
    + apply Forall_fmap, Forall_forall. intros t _. simpl.
      apply copy_from_ml_type_enumerator.
    + apply Forall_drop, Forall_replicate. simpl.
      unfold tensor_type. apply elem_of_app. right. constructor.
Qed.

End tensors_more.

(** A loop that returns has run every turn of its body. *)
Lemma for_range_Some_turns {St : Type} (I : St → Prop) body from count (s s' : St) :
  I s →
  (∀ k s s', body k s = Some s' → I s → I s') →
  for_range from count body s = Some s' →
  ∀ k, (from ≤ k < from + count)%nat → ∃ sk, I sk ∧ is_Some (body k sk).
Proof.
  revert from s. induction count as [|n IH]; intros from s Hs Hstep Hloop k Hk;
    [lia|].
  simpl in Hloop. destruct (body from s) as [s1|] eqn:Hbody; [|done].
  simpl in Hloop. destruct (decide (k = from)) as [->|Hne].
  - exists s. split; [done|]. by rewrite Hbody.
  - apply (IH (S from) s1); [by eapply Hstep|done|done|lia].
Qed.

Section tensors_bounds.
Import Tensors.
Context {hd : headers}.

Lemma copy_from_gst_tensor_length g k s s' :
  copy_from_gst_tensor g k s = Some s' →
  length (ml_tensor_info s') = length (ml_tensor_info s) ∧
  (k < length (gst_tensor_info g))%nat ∧ (k < length (ml_tensor_info s))%nat.
Proof.
  unfold copy_from_gst_tensor. intros H.
  destruct (gst_tensor_info g !! k) as [src|] eqn:Hsrc; [|done].
  destruct (ml_tensor_info s !! k) as [dst|] eqn:Hdst; [|done].
  simpl in H. destruct (copy_dimension _ _ _) as [dimension|]; [|done].
  simpl in H. unfold array_set in H. case_decide; [|done].
  simpl in H. injection H as <-. simpl. rewrite length_insert.
  split; [done|]. split; [by eapply lookup_lt_Some|done].
Qed.

Lemma copy_from_ml_tensor_length x k s s' :
  copy_from_ml_tensor x k s = Some s' →
  length (gst_tensor_info s') = length (gst_tensor_info s) ∧
  (k < length (ml_tensor_info x))%nat ∧ (k < length (gst_tensor_info s))%nat.
Proof.
  unfold copy_from_ml_tensor. intros H.
  destruct (ml_tensor_info x !! k) as [src|] eqn:Hsrc; [|done].
  destruct (gst_tensor_info s !! k) as [dst|] eqn:Hdst; [|done].
  simpl in H. destruct (copy_dimension _ _ _) as [dimension|]; [|done].
  simpl in H. unfold array_set in H. case_decide; [|done].
  simpl in H. injection H as <-. simpl. rewrite length_insert.
  split; [done|]. split; [by eapply lookup_lt_Some|done].
Qed.

(** X5. The count is not checked: with arrays of the declared lengths, a
    conversion stays inside the arrays, and returns, exactly when the
    source's [num_tensors] is at most both [ML_TENSOR_SIZE_LIMIT] and
    [NNS_TENSOR_SIZE_LIMIT]; a larger count indexes an array out of its
    bounds. *)
Theorem conversion_defined_iff_count_fits
    (d : ml_tensors_info_s) (g : GstTensorsInfo)
    (d' : GstTensorsInfo) (x : ml_tensors_info_s) :
  length (gst_tensor_info g) = NNS_TENSOR_SIZE_LIMIT →
  Forall (λ t, length (gst_dimension t) = NNS_TENSOR_RANK_LIMIT) (gst_tensor_info g) →
  length (ml_tensor_info x) = ML_TENSOR_SIZE_LIMIT →
  Forall (λ t, length (ml_dimension t) = ML_TENSOR_RANK_LIMIT) (ml_tensor_info x) →
  (is_Some (_ml_tensors_info_copy_from_gst (Some d) (Some g)) ↔
   (gst_num_tensors g ≤ ML_TENSOR_SIZE_LIMIT)%nat ∧
   (gst_num_tensors g ≤ NNS_TENSOR_SIZE_LIMIT)%nat) ∧
  (is_Some (_ml_tensors_info_copy_from_ml (Some d') (Some x)) ↔
   (ml_num_tensors x ≤ ML_TENSOR_SIZE_LIMIT)%nat ∧
   (ml_num_tensors x ≤ NNS_TENSOR_SIZE_LIMIT)%nat).
Proof.
  intros Hglen Hgdims Hxlen Hxdims. split; split.
  - intros [y Hy]. unfold _ml_tensors_info_copy_from_gst in Hy.
    destruct (for_range _ _ _ _) as [s'|] eqn:Hloop; [|done].
    assert (∀ k, (0 ≤ k < 0 + gst_num_tensors g)%nat →
                 ∃ sk, length (ml_tensor_info sk) = ML_TENSOR_SIZE_LIMIT ∧
                       is_Some (copy_from_gst_tensor g k sk)) as Hturns.
    { eapply (for_range_Some_turns
                (λ s, length (ml_tensor_info s) = ML_TENSOR_SIZE_LIMIT));
        [| |exact Hloop].
      - simpl. apply length_replicate.
      - intros k s s1 Hb Hs. apply copy_from_gst_tensor_length in Hb as [-> _].
        done. }
    destruct (decide (gst_num_tensors g ≤ ML_TENSOR_SIZE_LIMIT)%nat) as [?|Hml];
      [destruct (decide (gst_num_tensors g ≤ NNS_TENSOR_SIZE_LIMIT)%nat)
         as [?|Hnns]; [done|]|].
    + destruct (Hturns NNS_TENSOR_SIZE_LIMIT) as (sk & Hsk & [s1 Hs1]); [lia|].
      apply copy_from_gst_tensor_length in Hs1. lia.
    + destruct (Hturns ML_TENSOR_SIZE_LIMIT) as (sk & Hsk & [s1 Hs1]); [lia|].
      apply copy_from_gst_tensor_length in Hs1. lia.
  - intros [Hml Hnns]. rewrite copy_from_gst_spec; [by eexists| |done].
    by split; [|split].
  - intros [y Hy]. unfold _ml_tensors_info_copy_from_ml in Hy.
    destruct (for_range _ _ _ _) as [s'|] eqn:Hloop; [|done].
    assert (∀ k, (0 ≤ k < 0 + ml_num_tensors x)%nat →
                 ∃ sk, length (gst_tensor_info sk) = NNS_TENSOR_SIZE_LIMIT ∧
                       is_Some (copy_from_ml_tensor x k sk)) as Hturns.
    { eapply (for_range_Some_turns
                (λ s, length (gst_tensor_info s) = NNS_TENSOR_SIZE_LIMIT));
        [| |exact Hloop].
      - simpl. apply length_replicate.
      - intros k s s1 Hb Hs. apply copy_from_ml_tensor_length in Hb as [-> _].
        done. }
    destruct (decide (ml_num_tensors x ≤ ML_TENSOR_SIZE_LIMIT)%nat) as [?|Hml];
      [destruct (decide (ml_num_tensors x ≤ NNS_TENSOR_SIZE_LIMIT)%nat)
         as [?|Hnns]; [done|]|].
    + destruct (Hturns NNS_TENSOR_SIZE_LIMIT) as (sk & Hsk & [s1 Hs1]); [lia|].
      apply copy_from_ml_tensor_length in Hs1. lia.
    + destruct (Hturns ML_TENSOR_SIZE_LIMIT) as (sk & Hsk & [s1 Hs1]); [lia|].
      apply copy_from_ml_tensor_length in Hs1. lia.
  - intros [Hml Hnns]. rewrite copy_from_ml_spec; [by eexists| |done].
    by split; [|split].
Qed.

End tensors_bounds.

Lemma example_gst_padded_wf :
  @Tensors.gst_tensors_info_wf Tensors.headers_4_8 Tensors.example_gst_padded.
Proof. split; [reflexivity|]. split; [simpl; lia|]. repeat constructor. Qed.

Lemma round_trip_from_gst_from_ml_witness :
  ∃ y g',
    @Tensors._ml_tensors_info_copy_from_gst Tensors.headers_4_8
      (Some Tensors.example_ml) (Some Tensors.example_gst_padded) = Some (Some y) ∧
    @Tensors._ml_tensors_info_copy_from_ml Tensors.headers_4_8
      (Some Tensors.example_gst) (Some y) = Some (Some g') ∧
    Tensors.gst_num_tensors g' = 2%nat ∧
    ∀ i, (i < 2)%nat →
         Tensors.gst_tensor_info g' !! i
         = Tensors.gst_tensor_info Tensors.example_gst_padded !! i.
Proof.
  apply (@round_trip_from_gst_from_ml Tensors.headers_4_8
           Tensors.example_ml Tensors.example_gst Tensors.example_gst_padded).
  - apply headers_wf_example.
  - apply example_gst_padded_wf.
  - simpl. lia.
  - intros i t Hi Ht. simpl in Hi.
    destruct i as [|[|i]]; [| |lia]; injection Ht as <-; simpl.
    + split; [apply (bool_decide_unpack _); vm_compute; exact I|].
      intros j Hj. simpl in Hj. unfold Tensors.max_dim in Hj. simpl in Hj.
      do 4 (destruct j as [|j]; [lia|]).
      do 4 (destruct j as [|j]; [reflexivity|]). lia.
    + split; [apply (bool_decide_unpack _); vm_compute; exact I|].
      intros j Hj. simpl in Hj. unfold Tensors.max_dim in Hj. simpl in Hj.
      do 4 (destruct j as [|j]; [lia|]).
      do 4 (destruct j as [|j]; [reflexivity|]). lia.
Defined.

Lemma conversion_settles_witness :
  ∃ y1 g1,
    @Tensors._ml_tensors_info_copy_from_gst Tensors.headers_4_8
      (Some Tensors.example_ml) (Some Tensors.example_gst) = Some (Some y1) ∧
    @Tensors._ml_tensors_info_copy_from_ml Tensors.headers_4_8
      (Some Tensors.example_gst) (Some y1) = Some (Some g1) ∧
    @Tensors._ml_tensors_info_copy_from_gst Tensors.headers_4_8
      (Some Tensors.example_ml) (Some g1) = Some (Some y1).
Proof.
  apply (@conversion_settles Tensors.headers_4_8
           Tensors.example_ml Tensors.example_gst
           Tensors.example_ml Tensors.example_gst).
  - apply headers_wf_example.
  - apply example_ml_wf.
  - simpl. lia.
  - apply example_gst_wf.
  - simpl. lia.
Defined.

Lemma conversion_resets_unused_slots_witness :
  ∃ y, @Tensors._ml_tensors_info_copy_from_gst Tensors.headers_4_8
         (Some Tensors.example_ml) (Some Tensors.example_gst_padded) = Some (Some y) ∧
       Tensors.ml_tensor_info y !! 2%nat
       = Some {| Tensors.ml_name := NULL; Tensors.ml_type := 10;
                 Tensors.ml_dimension := [0; 0; 0; 0] |}.
Proof.
  destruct (proj1 (@conversion_resets_unused_slots Tensors.headers_4_8
              Tensors.example_ml Tensors.example_gst_padded
              Tensors.example_gst Tensors.example_ml
              example_gst_padded_wf ltac:(simpl; lia)
              (example_ml_wf 8) ltac:(simpl; lia)))
    as (y & Hy & Hslots).
  exists y. split; [exact Hy|]. apply (Hslots 2%nat). simpl. lia.
Defined.

Lemma conversion_result_well_formed_witness :
  ∃ y, @Tensors._ml_tensors_info_copy_from_gst Tensors.headers_4_8
         (Some Tensors.example_ml) (Some Tensors.example_gst) = Some (Some y) ∧
       @Tensors.ml_tensors_info_wf Tensors.headers_4_8 y ∧
       Forall (λ t, Tensors.ml_type t ∈ @Tensors.ml_tensor_type_e Tensors.headers_4_8)
              (Tensors.ml_tensor_info y).
Proof.
  apply (proj1 (@conversion_result_well_formed Tensors.headers_4_8
                  Tensors.example_ml Tensors.example_gst
                  Tensors.example_gst Tensors.example_ml
                  example_gst_wf ltac:(simpl; lia)
                  (example_ml_wf 8) ltac:(simpl; lia))).
Defined.

Lemma conversion_defined_iff_count_fits_witness :
  ¬ is_Some (@Tensors._ml_tensors_info_copy_from_gst Tensors.headers_4_8
               (Some Tensors.example_ml)
               (Some {| Tensors.gst_num_tensors := 4;
                        Tensors.gst_tensor_info :=
                          Tensors.gst_tensor_info Tensors.example_gst |})).
Proof.
  intros H.
  apply (proj1 (@conversion_defined_iff_count_fits Tensors.headers_4_8
                  Tensors.example_ml
                  {| Tensors.gst_num_tensors := 4;
                     Tensors.gst_tensor_info :=
                       Tensors.gst_tensor_info Tensors.example_gst |}
                  Tensors.example_gst Tensors.example_ml
                  eq_refl ltac:(repeat constructor)
                  eq_refl ltac:(repeat constructor))) in H.
  simpl in H. lia.
Defined.

(** ** The registry, beyond the claims *)

Section registry_more.
Import CStr Registry.
Local Open Scope string_scope.
Local Open Scope Z_scope.
Local Open Scope list_scope.

Lemma nat_of_ascii_0 (c : ascii) : nat_of_ascii c = 0%nat → c = "000"%char.
Proof. intros H. by rewrite <- (ascii_nat_embedding c), H. Qed.

Lemma nat_of_ascii_inj (a b : ascii) : nat_of_ascii a = nat_of_ascii b → a = b.
Proof.
  intros H. by rewrite <- (ascii_nat_embedding a), <- (ascii_nat_embedding b), H.
Qed.

(** On C strings, [g_ascii_strcasecmp] finds no difference exactly when the
    lowered strings are the same. *)
Lemma g_ascii_strcasecmp_0 (s1 s2 : string) :
  c_string s1 → c_string s2 →
  g_ascii_strcasecmp s1 s2 = 0 ↔ g_ascii_strdown s1 = g_ascii_strdown s2.
Proof.
  revert s2. induction s1 as [|c1 s1 IH]; intros [|c2 s2] H1 H2; simpl.
  - done.
  - apply Forall_cons in H2 as [Hc _]. split; [|done].
    intros H. destruct Hc. apply nat_of_ascii_0. lia.
  - apply Forall_cons in H1 as [Hc _]. split; [|done].
    intros H. destruct Hc. apply nat_of_ascii_0. lia.
  - apply Forall_cons in H1 as [_ H1]. apply Forall_cons in H2 as [_ H2].
    destruct (Z.eqb_spec (Z.of_nat (nat_of_ascii (g_ascii_tolower c1)))
                         (Z.of_nat (nat_of_ascii (g_ascii_tolower c2)))) as [Heq|Hne].
    + apply Nat2Z.inj, nat_of_ascii_inj in Heq. rewrite Heq, (IH s2 H1 H2).
      split; [by intros ->|by intros [= ->]].
    + split; [lia|]. intros [= Heq _]. by rewrite Heq in Hne.
Qed.

(** A name of the table resolves to the id that designates it, which is
    never [ML_NNFW_TYPE_SNAP], and is its own lowering. *)
Lemma table_name_resolves (name : string) :
  name ∈ (snd <$> ml_nnfw_subplugin_name_init) →
  (_ml_get_nnfw_type_by_subplugin_name (Some name)).1 ≠ ML_NNFW_TYPE_SNAP ∧
  (_ml_get_nnfw_type_by_subplugin_name (Some name)).2 = [] ∧
  g_ascii_strdown name ≠ "snap".
Proof.
  intros Hin. simpl in Hin.
  repeat (apply elem_of_cons in Hin as [->|Hin]; [by vm_compute|]).
  by apply elem_of_nil in Hin.
Qed.


(** X7. Which names are SNAP: a C string resolves to [ML_NNFW_TYPE_SNAP]
    exactly when its lowering is ["snap"]; no entry of the table is such a
    name, and no other spelling reaches the id. *)
Theorem snap_resolution (name : string) :
  c_string name →
  (_ml_get_nnfw_type_by_subplugin_name (Some name)).1 = ML_NNFW_TYPE_SNAP
  ↔ g_ascii_strdown name = "snap".
Proof.
  intros Hname.
  assert (c_string "snap") as Hsnap by (repeat constructor; done).
  destruct (decide (name ∈ (snd <$> ml_nnfw_subplugin_name_init))) as [Hin|Hout].
  - destruct (table_name_resolves name Hin) as (H1 & _ & H2). done.
  - unfold _ml_get_nnfw_type_by_subplugin_name, find_key_strv, ml_nnfw_subplugin_name.
    rewrite find_key_strv_from_absent by done. simpl.
    rewrite <- (g_ascii_strcasecmp_0 name "snap" Hname Hsnap).
    destruct (Z.eqb_spec (g_ascii_strcasecmp name "snap") 0); simpl; split; done.
Qed.

End registry_more.

Lemma snap_resolution_witness :
  (Registry._ml_get_nnfw_type_by_subplugin_name (Some "SnAp"%string)).1
  = Registry.ML_NNFW_TYPE_SNAP.
Proof.
  apply (proj2 (snap_resolution "SnAp" ltac:(repeat constructor; done))).
  reflexivity.
Defined.

(** ** The validation, beyond the claims *)

Section validator_more.
Import CStr Registry Validator.
Local Open Scope string_scope.
Local Open Scope Z_scope.
Local Open Scope list_scope.
Context {env : environment}.

Lemma validate_regular_files_NONE (model : list (nullable string)) :
  (validate_regular_files model).1 = ML_ERROR_NONE ↔
  Forall (λ m, g_file_test m G_FILE_TEST_IS_REGULAR = true) model.
Proof.
  induction model as [|m model IH]; simpl; [done|].
  destruct m as [m|]; simpl.
  - destruct (file_test m G_FILE_TEST_IS_REGULAR) eqn:Hm; simpl.
    + rewrite IH. split; [by constructor|by inv 1].
    + split; [done|]. intros H. apply Forall_cons in H as [H _].
      simpl in H. congruence.
  - split; [done|]. intros H. by apply Forall_cons in H as [H _].
Qed.

(** X8. The existence checks: [__ml_validate_model_file] returns
    [ML_ERROR_NONE] exactly when the array is there, is not empty, and
    either its first path is a directory or every path is the name of a
    regular file; every other call returns [ML_ERROR_INVALID_PARAMETER] and
    leaves [*is_dir] alone.  [*is_dir] becomes true only for a first path
    that is a directory, and then the other paths are not looked at. *)
Theorem existence_checks_spec (model : nullable (list (nullable string)))
    (is_dir0 : bool) :
  let status := (__ml_validate_model_file model is_dir0).1.1 in
  let is_dir := (__ml_validate_model_file model is_dir0).1.2 in
  (status = ML_ERROR_NONE ↔
   ∃ model0 rest, model = Some (model0 :: rest) ∧
     (g_file_test model0 G_FILE_TEST_IS_DIR = true ∨
      Forall (λ m, g_file_test m G_FILE_TEST_IS_REGULAR = true) (model0 :: rest))) ∧
  (status ≠ ML_ERROR_NONE →
   status = ML_ERROR_INVALID_PARAMETER ∧ is_dir = is_dir0) ∧
  (is_dir = true ↔
   is_dir0 = true ∨
   ∃ model0 rest, model = Some (model0 :: rest) ∧
                  g_file_test model0 G_FILE_TEST_IS_DIR = true).
Proof.
  intros status is_dir. subst status is_dir.
  unfold __ml_validate_model_file.
  destruct model as [[|model0 rest]|].
  - simpl. split; [|split]; [split; [done|]| |].
    + by intros (? & ? & ? & _).
    + done.
    + split; [by left|]. by intros [?|(? & ? & ? & _)].
  - destruct (g_file_test model0 G_FILE_TEST_IS_DIR) eqn:Hdir.
    + simpl. split; [|split].
      * split; [|done]. intros _. exists model0, rest. split; [done|by left].
      * done.
      * split; [|done]. intros _. right. by exists model0, rest.
    + pose proof (validate_regular_files_NONE (model0 :: rest)) as Hreg.
      pose proof (validate_regular_files_status (model0 :: rest)) as Hst.
      destruct (validate_regular_files (model0 :: rest)) as [status log].
      simpl in *. split; [|split].
      * rewrite Hreg. split.
        -- intros H. exists model0, rest. split; [done|by right].
        -- intros (m0 & r & [= <- <-] & [Hd|Hf]); [congruence|done].
      * intros Hne. split; [by destruct Hst|done].
      * split; [by left|]. intros [?|(m0 & r & [= <- <-] & Hd)]; [done|congruence].
  - simpl. split; [|split]; [split; [done|]| |].
    + by intros (? & ? & ? & _).
    + done.
    + split; [by left|]. by intros [?|(? & ? & ? & _)].
Qed.

Lemma existence_checks_is_dir models log0 :
  __ml_validate_model_file (Some models) false = (ML_ERROR_NONE, true, log0) →
  ∃ model0 rest, models = model0 :: rest ∧
                 g_file_test model0 G_FILE_TEST_IS_DIR = true.
Proof.
  intros H.
  destruct (existence_checks_spec (Some models) false) as (_ & _ & Hdir).
  rewrite H in Hdir. simpl in Hdir. destruct Hdir as [Hdir _].
  destruct (Hdir eq_refl) as [?|(m0 & r & [= ->] & ?)]; [done|eauto].
Qed.

Lemma validate_extension_defined nnfw (file_ext : list string) :
  file_ext ≠ [] → is_Some (validate_extension nnfw file_ext).
Proof.
  intros Hne. destruct file_ext as [|ext0 file_ext]; [done|].
  destruct nnfw; simpl; repeat case_match; by eexists.
Qed.

Lemma validate_extension_status nnfw (file_ext : list string) status log :
  validate_extension nnfw file_ext = Some (status, log) →
  status ≠ ML_ERROR_STREAMS_PIPE.
Proof.
  destruct nnfw; simpl; intros H;
    repeat (simplify_option_eq || case_match); done.
Qed.

Lemma validate_decide_defined models is_dir nnfw detected :
  Forall is_Some models → models ≠ [] →
  is_Some (validate_decide models is_dir nnfw detected).
Proof.
  intros Hnames Hne. unfold validate_decide.
  destruct (decide (nnfw = ML_NNFW_TYPE_ANY));
    [destruct (decide (detected = ML_NNFW_TYPE_ANY)); by eexists|].
  destruct (is_dir && _); [by eexists|].
  destruct (decide (detected = nnfw)); [by eexists|].
  destruct (validate_file_ext_defined models [] Hnames) as [[exts|m] Hloop];
    rewrite Hloop; simpl; [|by eexists].
  destruct (validate_file_ext_first _ _ Hloop Hne) as (? & ? & _ & _ & Hext0).
  destruct (validate_extension_defined nnfw exts) as [[st log] ->];
    [by intros ->|]. by eexists.
Qed.

(** What [validate_decide] can hand to the label [done]. *)
Lemma validate_decide_inv models is_dir nnfw detected status resolved log :
  validate_decide models is_dir nnfw detected = Some (status, resolved, log) →
  (resolved = nnfw ∨
   (nnfw = ML_NNFW_TYPE_ANY ∧ detected ≠ ML_NNFW_TYPE_ANY ∧
    resolved = detected ∧ status = ML_ERROR_NONE)) ∧
  status ≠ ML_ERROR_STREAMS_PIPE ∧
  (status = ML_ERROR_NONE → resolved ≠ ML_NNFW_TYPE_ANY).
Proof.
  unfold validate_decide. intros H.
  destruct (decide (nnfw = ML_NNFW_TYPE_ANY)) as [->|Hany].
  - destruct (decide (detected = ML_NNFW_TYPE_ANY)); simplify_eq; naive_solver.
  - destruct (is_dir && _); [simplify_eq; naive_solver|].
    destruct (decide (detected = nnfw)); [simplify_eq; naive_solver|].
    destruct (validate_file_ext models []) as [[exts|m]|]; simpl in H;
      [|simplify_eq; naive_solver|done].
    destruct (validate_extension nnfw exts) as [[st l]|] eqn:Hext; [|done].
    simpl in H. simplify_eq. apply validate_extension_status in Hext.
    naive_solver.
Qed.

Lemma validate_done_status status nnfw :
  status ≠ ML_ERROR_STREAMS_PIPE →
  (validate_done status nnfw).1 ≠ ML_ERROR_STREAMS_PIPE.
Proof.
  unfold validate_done. intros H. repeat case_match; simpl; done.
Qed.

Lemma validate_done_NONE status nnfw :
  (validate_done status nnfw).1 = ML_ERROR_NONE →
  status = ML_ERROR_NONE ∧ _ml_nnfw_is_available nnfw ML_NNFW_HW_ANY = true.
Proof.
  unfold validate_done. destruct (decide (status = ML_ERROR_NONE)) as [->|Hne].
  - by destruct (_ml_nnfw_is_available nnfw ML_NNFW_HW_ANY).
  - done.
Qed.

(** The two ways in which a call with a framework pointer returns. *)
Lemma validate_inv model nnfw status out log :
  _ml_validate_model_file model (Some nnfw) = Some (status, out, log) →
  (∃ is_dir, __ml_validate_model_file model false = (status, is_dir, log) ∧
             status ≠ ML_ERROR_NONE ∧ out = Some nnfw) ∨
  (∃ models is_dir log0 st resolved log2,
     model = Some models ∧
     __ml_validate_model_file model false = (ML_ERROR_NONE, is_dir, log0) ∧
     validate_decide models is_dir nnfw (detected_framework models)
     = Some (st, resolved, log2) ∧
     status = (validate_done st resolved).1 ∧ out = Some resolved).
Proof.
  unfold _ml_validate_model_file.
  destruct (__ml_validate_model_file model false) as [[status0 is_dir] log0] eqn:Hcheck.
  destruct (decide (status0 ≠ ML_ERROR_NONE)) as [Hne|Heq].
  - intros [= <- <- <-]. left. eauto.
  - apply dec_stable in Heq. subst status0.
    destruct model as [models|]; [|done]. simpl. unfold detected_framework.
    destruct (_ml_get_nnfw_type_by_subplugin_name _) as [detected log1] eqn:Hdet.
    simpl.
    destruct (validate_decide models is_dir nnfw detected)
      as [[[st resolved] log2]|] eqn:Hdecide; [|done].
    simpl. destruct (validate_done st resolved) as [status' log3] eqn:Hdone.
    intros [= <- <- <-]. right.
    exists models, is_dir, log0, st, resolved, log2.
    rewrite Hdet, Hdone. by repeat split.
Qed.

(** X9. The call stays inside defined behaviour unless a directory comes
    with a null path: whenever the paths of a set whose first path is a
    directory are all there, [_ml_validate_model_file] returns, for every
    array, requested framework and environment.  (After a first path that is
    no directory, the existence checks have refused null paths already.) *)
Theorem validation_defined (model : nullable (list (nullable string)))
    (nnfw : nullable ml_nnfw_type_e) :
  (∀ model0 rest, model = Some (model0 :: rest) →
                  g_file_test model0 G_FILE_TEST_IS_DIR = true →
                  Forall is_Some (model0 :: rest)) →
  is_Some (_ml_validate_model_file model nnfw).
Proof.
  intros Hdir. destruct nnfw as [nnfw|]; [|by eexists].
  unfold _ml_validate_model_file.
  destruct (__ml_validate_model_file model false) as [[status is_dir] log0] eqn:Hcheck.
  destruct (decide (status ≠ ML_ERROR_NONE)) as [Hne|Heq]; [by eexists|].
  apply dec_stable in Heq. subst status.
  destruct (existence_checks_model model false) as (model0 & rest & ->);
    [by rewrite Hcheck|].
  simpl.
  destruct (_ml_get_nnfw_type_by_subplugin_name _) as [detected log1].
  destruct (validate_decide_defined (model0 :: rest) is_dir nnfw detected)
    as [[[st resolved] log2] ->]; [|done|].
  - destruct is_dir.
    + destruct (existence_checks_is_dir _ _ Hcheck) as (m0 & r & [= <- <-] & Hd).
      by apply Hdir.
    + by eapply existence_checks_files.
  - simpl. destruct (validate_done st resolved). by eexists.
Qed.

(** X10. The return values and the in/out parameter: a call with a
    framework pointer returns [ML_ERROR_NONE], [ML_ERROR_INVALID_PARAMETER]
    or [ML_ERROR_NOT_SUPPORTED], the values its documentation lists, and it
    leaves [*nnfw] as it was when a framework other than
    [ML_NNFW_TYPE_ANY] was requested or the existence checks fail.  When
    [ML_NNFW_TYPE_ANY] is requested and the existence checks pass, the call
    returns and [*nnfw] holds what the detection resolved to: the detected
    framework, written back even when the call then fails on its
    availability, or [ML_NNFW_TYPE_ANY], unchanged, when nothing was
    detected. *)
Theorem validation_outcome (model : nullable (list (nullable string)))
    (nnfw : ml_nnfw_type_e) :
  (∀ status out log,
     _ml_validate_model_file model (Some nnfw) = Some (status, out, log) →
     status ∈ [ML_ERROR_NONE; ML_ERROR_INVALID_PARAMETER; ML_ERROR_NOT_SUPPORTED] ∧
     (nnfw ≠ ML_NNFW_TYPE_ANY → out = Some nnfw) ∧
     ((__ml_validate_model_file model false).1.1 ≠ ML_ERROR_NONE →
      out = Some nnfw)) ∧
  (nnfw = ML_NNFW_TYPE_ANY →
   ∀ models, model = Some models →
     (__ml_validate_model_file model false).1.1 = ML_ERROR_NONE →
     ∃ status log,
       _ml_validate_model_file model (Some nnfw)
       = Some (status, Some (detected_framework models), log) ∧
       (detected_framework models = ML_NNFW_TYPE_ANY →
        status = ML_ERROR_INVALID_PARAMETER) ∧
       (detected_framework models ≠ ML_NNFW_TYPE_ANY →
        status = if _ml_nnfw_is_available (detected_framework models) ML_NNFW_HW_ANY
                 then ML_ERROR_NONE else ML_ERROR_NOT_SUPPORTED)).
Proof.
  split.
  - intros status out log Hcall.
    assert (status ≠ ML_ERROR_STREAMS_PIPE →
            status ∈ [ML_ERROR_NONE; ML_ERROR_INVALID_PARAMETER; ML_ERROR_NOT_SUPPORTED])
      as Hvalues.
    { destruct status; intros ?; try done; repeat (first [by left | right]). }
    apply validate_inv in Hcall
      as [(is_dir & Hcheck & Hne & ->)
         |(models & is_dir & log0 & st & resolved & log2 & -> & Hcheck & Hdecide & -> & ->)].
    + split; [|done]. apply Hvalues.
      destruct (existence_checks_spec model false) as (_ & Hfail & _).
      rewrite Hcheck in Hfail. simpl in Hfail. destruct (Hfail Hne) as [-> _]. done.
    + rewrite Hcheck. simpl.
      apply validate_decide_inv in Hdecide as ([->|(-> & Hdet & -> & ->)] & Hst & _).
      * split; [|done]. by apply Hvalues, validate_done_status.
      * split; [by apply Hvalues, validate_done_status|]. done.
  - intros -> models -> Hpass.
    destruct (__ml_validate_model_file (Some models) false) as [[status0 is_dir] log0]
      eqn:Hcheck.
    simpl in Hpass. subst status0.
    destruct (decide (detected_framework models = ML_NNFW_TYPE_ANY)) as [Hdet|Hdet].
    + destruct (validate_reaches_done models is_dir log0 ML_NNFW_TYPE_ANY
                  ML_ERROR_INVALID_PARAMETER ML_NNFW_TYPE_ANY
                  (_ml_loge "The given model has unknown or not supported extension." [])
                  Hcheck) as [log Hcall].
      { unfold validate_decide. rewrite decide_True by done.
        by rewrite decide_True. }
      rewrite validate_done_failed in Hcall by done.
      exists ML_ERROR_INVALID_PARAMETER, log. rewrite Hdet.
      split; [exact Hcall|]. split; [done|]. done.
    + destruct (validate_reaches_done models is_dir log0 ML_NNFW_TYPE_ANY
                  ML_ERROR_NONE (detected_framework models)
                  (_ml_logi "The given model is supposed a %s model."
                     [GST_STR_NULL (_ml_get_nnfw_subplugin_name
                                      (detected_framework models))]) Hcheck)
        as [log Hcall].
      { unfold validate_decide. rewrite decide_True by done.
        by rewrite decide_False. }
      rewrite validate_done_passed in Hcall.
      eexists _, log. split; [exact Hcall|]. split; [done|]. done.
Qed.

(** X11. Success means a usable framework: when the call returns
    [ML_ERROR_NONE], the existence checks have passed and [*nnfw] holds a
    framework that is not [ML_NNFW_TYPE_ANY] and that the availability query
    accepts. *)
Theorem validation_success (model : nullable (list (nullable string)))
    (nnfw : ml_nnfw_type_e) out log :
  _ml_validate_model_file model (Some nnfw) = Some (ML_ERROR_NONE, out, log) →
  (__ml_validate_model_file model false).1.1 = ML_ERROR_NONE ∧
  ∃ resolved, out = Some resolved ∧
              resolved ≠ ML_NNFW_TYPE_ANY ∧
              _ml_nnfw_is_available resolved ML_NNFW_HW_ANY = true.
Proof.
  intros Hcall.
  apply validate_inv in Hcall
    as [(is_dir & Hcheck & Hne & ->)
       |(models & is_dir & log0 & st & resolved & log2 & -> & Hcheck & Hdecide & Hst & ->)];
    [done|].
  symmetry in Hst. apply validate_done_NONE in Hst as [-> Havail].
  apply validate_decide_inv in Hdecide as (_ & _ & Hany).
  rewrite Hcheck. split; [done|]. exists resolved. auto.
Qed.

(** X12. Validation can be repeated with its own answer: if a call that
    requests [ML_NNFW_TYPE_ANY] succeeds and leaves a framework in [*nnfw],
    a second call on the same paths that requests that framework succeeds
    too and keeps it, provided the first path is no directory or the
    framework is [ML_NNFW_TYPE_NNFW]. *)
Theorem validation_repeats (model : nullable (list (nullable string)))
    (resolved : ml_nnfw_type_e) log :
  _ml_validate_model_file model (Some ML_NNFW_TYPE_ANY)
  = Some (ML_ERROR_NONE, Some resolved, log) →
  (∀ model0 rest, model = Some (model0 :: rest) →
                  g_file_test model0 G_FILE_TEST_IS_DIR = true →
                  resolved = ML_NNFW_TYPE_NNFW) →
  ∃ log', _ml_validate_model_file model (Some resolved)
          = Some (ML_ERROR_NONE, Some resolved, log').
Proof.
  intros Hcall Hdir.
  apply validate_inv in Hcall
    as [(is_dir & Hcheck & Hne & _)
       |(models & is_dir & log0 & st & f & log2 & -> & Hcheck & Hdecide & Hst & [= <-])];
    [done|].
  symmetry in Hst. apply validate_done_NONE in Hst as [-> Havail].
  pose proof (validate_decide_inv _ _ _ _ _ _ _ Hdecide) as (Hres & _ & Hany).
  specialize (Hany eq_refl).
  destruct Hres as [->|(_ & _ & Hdet & _)]; [done|].
  destruct (validate_reaches_done models is_dir log0 resolved ML_ERROR_NONE
              resolved [] Hcheck) as [log' Hcall'].
  { unfold validate_decide. rewrite decide_False by done.
    rewrite <- Hdet. rewrite decide_True by done.
    destruct is_dir; [|done].
    destruct (existence_checks_is_dir _ _ Hcheck) as (m0 & r & -> & Hd).
    by rewrite (Hdir m0 r eq_refl Hd). }
  rewrite validate_done_passed, Havail in Hcall'. eauto.
Qed.

(** X13. A detection that agrees settles the matter: when the requested
    framework is the detected one (and a directory is only handed to
    [ML_NNFW_TYPE_NNFW]), no extension is looked at, and the call succeeds
    if the framework is available and fails with [ML_ERROR_NOT_SUPPORTED] if
    it is not. *)
Theorem matching_detection (models : list (nullable string)) is_dir log0
    (nnfw : ml_nnfw_type_e) :
  __ml_validate_model_file (Some models) false = (ML_ERROR_NONE, is_dir, log0) →
  nnfw ≠ ML_NNFW_TYPE_ANY →
  (is_dir = true → nnfw = ML_NNFW_TYPE_NNFW) →
  detected_framework models = nnfw →
  ∃ log, _ml_validate_model_file (Some models) (Some nnfw)
         = Some (if _ml_nnfw_is_available nnfw ML_NNFW_HW_ANY
                 then ML_ERROR_NONE else ML_ERROR_NOT_SUPPORTED,
                 Some nnfw, log).
Proof.
  intros Hcheck Hany Hdir Hdet.
  destruct (validate_reaches_done models is_dir log0 nnfw ML_ERROR_NONE nnfw []
              Hcheck) as [log Hcall].
  { unfold validate_decide. rewrite decide_False by done. rewrite Hdet.
    rewrite decide_True by done. destruct is_dir; [|done].
    by rewrite (Hdir eq_refl). }
  rewrite validate_done_passed in Hcall. eauto.
Qed.

(** A path without a dot stops the loop over the extensions. *)
Lemma validate_file_ext_missing (models : list (nullable string)) file_ext m :
  Forall is_Some models → Some m ∈ models → strrchr m "." = NULL →
  ∃ m', validate_file_ext models file_ext = Some (inr m').
Proof.
  intros Hnames. revert file_ext.
  induction Hnames as [|m0 models [m0' ->] _ IH]; intros file_ext Hin Hm.
  - by apply elem_of_nil in Hin.
  - simpl. destruct (strrchr m0' ".") as [pos|] eqn:Hpos; [|by eexists].
    apply elem_of_cons in Hin as [[= ->]|Hin]; [congruence|]. by apply IH.
Qed.

(** The way through the extension check, for a detection that disagrees. *)
Lemma validate_mismatch (models : list (nullable string)) is_dir log0
    (nnfw : ml_nnfw_type_e) exts status logx :
  __ml_validate_model_file (Some models) false = (ML_ERROR_NONE, is_dir, log0) →
  nnfw ≠ ML_NNFW_TYPE_ANY →
  (is_dir = true → nnfw = ML_NNFW_TYPE_NNFW) →
  detected_framework models ≠ nnfw →
  validate_file_ext models [] = Some (inl exts) →
  validate_extension nnfw exts = Some (status, logx) →
  ∃ log, _ml_validate_model_file (Some models) (Some nnfw)
         = Some ((validate_done status nnfw).1, Some nnfw, log).
Proof.
  intros Hcheck Hany Hdir Hdet Hloop Hext.
  apply (validate_reaches_done models is_dir log0 nnfw status nnfw logx Hcheck).
  unfold validate_decide. rewrite decide_False by done.
  replace (is_dir && bool_decide (nnfw ≠ ML_NNFW_TYPE_NNFW)) with false.
  - rewrite decide_False by done. rewrite Hloop. simpl. by rewrite Hext.
  - destruct is_dir; [|done]. by rewrite (Hdir eq_refl).
Qed.

(** X14. A path without an extension: for every requested framework other
    than [ML_NNFW_TYPE_ANY] that the detection does not confirm, a path set
    (null paths apart) in which some path holds no dot makes the call fail
    with [ML_ERROR_INVALID_PARAMETER], whatever the framework accepts and
    whether or not it is available. *)
Theorem missing_extension (models : list (nullable string)) is_dir log0
    (nnfw : ml_nnfw_type_e) (m : string) :
  __ml_validate_model_file (Some models) false = (ML_ERROR_NONE, is_dir, log0) →
  nnfw ≠ ML_NNFW_TYPE_ANY →
  detected_framework models ≠ nnfw →
  Forall is_Some models → Some m ∈ models → strrchr m "." = NULL →
  ∃ log, _ml_validate_model_file (Some models) (Some nnfw)
         = Some (ML_ERROR_INVALID_PARAMETER, Some nnfw, log).
Proof.
  intros Hcheck Hany Hdet Hnames Hin Hm.
  destruct (validate_file_ext_missing models [] m Hnames Hin Hm) as [m' Hloop].
  destruct (is_dir && bool_decide (nnfw ≠ ML_NNFW_TYPE_NNFW)) eqn:Hd.
  - destruct (validate_reaches_done models is_dir log0 nnfw
                ML_ERROR_INVALID_PARAMETER nnfw
                (_ml_loge "The given model is directory, check model and framework." [])
                Hcheck) as [log Hcall].
    { unfold validate_decide. rewrite decide_False by done. by rewrite Hd. }
    rewrite validate_done_failed in Hcall by done. eauto.
  - destruct (validate_reaches_done models is_dir log0 nnfw
                ML_ERROR_INVALID_PARAMETER nnfw
                (_ml_loge "The given model [%s] has invalid extension." [m'])
                Hcheck) as [log Hcall].
    { unfold validate_decide. rewrite decide_False by done. rewrite Hd.
      rewrite decide_False by done. by rewrite Hloop. }
    rewrite validate_done_failed in Hcall by done. eauto.
Qed.

(** X15. Frameworks without a rule: the [switch] has no case for
    [ML_NNFW_TYPE_CUSTOM_FILTER], [ML_NNFW_TYPE_TENSORFLOW_LITE],
    [ML_NNFW_TYPE_TENSORFLOW], [ML_NNFW_TYPE_VIVANTE], [ML_NNFW_TYPE_SNPE],
    [ML_NNFW_TYPE_PYTORCH], [ML_NNFW_TYPE_NNTR_INF] and
    [ML_NNFW_TYPE_TRIX_ENGINE].  Requesting one of them for paths that the
    detection does not resolve to it fails with
    [ML_ERROR_INVALID_PARAMETER], whatever the extensions are and whether or
    not the framework is available: for these frameworks the call can only
    succeed through the detection. *)
Theorem framework_without_rule (models : list (nullable string)) is_dir log0
    (nnfw : ml_nnfw_type_e) :
  __ml_validate_model_file (Some models) false = (ML_ERROR_NONE, is_dir, log0) →
  nnfw ∈ [ML_NNFW_TYPE_CUSTOM_FILTER; ML_NNFW_TYPE_TENSORFLOW_LITE;
          ML_NNFW_TYPE_TENSORFLOW; ML_NNFW_TYPE_VIVANTE; ML_NNFW_TYPE_SNPE;
          ML_NNFW_TYPE_PYTORCH; ML_NNFW_TYPE_NNTR_INF; ML_NNFW_TYPE_TRIX_ENGINE] →
  detected_framework models ≠ nnfw →
  Forall is_Some models →
  ∃ log, _ml_validate_model_file (Some models) (Some nnfw)
         = Some (ML_ERROR_INVALID_PARAMETER, Some nnfw, log).
Proof.
  intros Hcheck Hnnfw Hdet Hnames.
  assert (nnfw ≠ ML_NNFW_TYPE_ANY ∧ nnfw ≠ ML_NNFW_TYPE_NNFW ∧
          ∀ exts, validate_extension nnfw exts = Some (ML_ERROR_INVALID_PARAMETER, []))
    as (Hany & Hone & Hext).
  { repeat (apply elem_of_cons in Hnnfw as [->|Hnnfw]; [done|]).
    by apply elem_of_nil in Hnnfw. }
  destruct is_dir.
  - destruct (validate_reaches_done models true log0 nnfw
                ML_ERROR_INVALID_PARAMETER nnfw
                (_ml_loge "The given model is directory, check model and framework." [])
                Hcheck) as [log Hcall].
    { unfold validate_decide. rewrite decide_False by done. simpl.
      by rewrite bool_decide_true. }
    rewrite validate_done_failed in Hcall by done. eauto.
  - destruct (validate_file_ext_defined models [] Hnames) as [[exts|m] Hloop].
    + destruct (validate_mismatch models false log0 nnfw exts
                  ML_ERROR_INVALID_PARAMETER [] Hcheck Hany) as [log Hcall];
        [done|done|done|apply Hext|].
      rewrite validate_done_failed in Hcall by done. eauto.
    + destruct (validate_reaches_done models false log0 nnfw
                  ML_ERROR_INVALID_PARAMETER nnfw
                  (_ml_loge "The given model [%s] has invalid extension." [m])
                  Hcheck) as [log Hcall].
      { unfold validate_decide. rewrite decide_False by done. simpl.
        rewrite decide_False by done. by rewrite Hloop. }
      rewrite validate_done_failed in Hcall by done. eauto.
Qed.

(** X16. Frameworks that are refused: requesting [ML_NNFW_TYPE_MVNC],
    [ML_NNFW_TYPE_OPENVINO] or [ML_NNFW_TYPE_EDGE_TPU], or
    [ML_NNFW_TYPE_SNAP] in a build that is not for Android, for files with
    extensions that the detection does not resolve to the framework fails
    with [ML_ERROR_NOT_SUPPORTED], even when the framework is available. *)
Theorem framework_refused (models : list (nullable string)) log0
    (nnfw : ml_nnfw_type_e) :
  __ml_validate_model_file (Some models) false = (ML_ERROR_NONE, false, log0) →
  nnfw ∈ [ML_NNFW_TYPE_MVNC; ML_NNFW_TYPE_OPENVINO; ML_NNFW_TYPE_EDGE_TPU] ∨
  nnfw = ML_NNFW_TYPE_SNAP ∧ defined__ANDROID__ = false →
  detected_framework models ≠ nnfw →
  Forall (λ m, ∃ m', m = Some m' ∧ is_Some (strrchr m' ".")) models →
  ∃ log, _ml_validate_model_file (Some models) (Some nnfw)
         = Some (ML_ERROR_NOT_SUPPORTED, Some nnfw, log).
Proof.
  intros Hcheck Hnnfw Hdet Hexts.
  destruct (validate_file_ext_all models [] Hexts) as (exts & Hloop & _).
  simpl in Hloop.
  assert (nnfw ≠ ML_NNFW_TYPE_ANY ∧
          ∃ logx, validate_extension nnfw exts = Some (ML_ERROR_NOT_SUPPORTED, logx))
    as (Hany & logx & Hext).
  { destruct Hnnfw as [Hnnfw|[-> Hand]].
    - repeat (apply elem_of_cons in Hnnfw as [->|Hnnfw];
              [split; [done|by eexists]|]).
      by apply elem_of_nil in Hnnfw.
    - split; [done|]. simpl. rewrite Hand. by eexists. }
  destruct (validate_mismatch models false log0 nnfw exts
              ML_ERROR_NOT_SUPPORTED logx Hcheck Hany) as [log Hcall];
    [done|done|done|done|].
  rewrite validate_done_failed in Hcall by done. eauto.
Qed.

(** X17. Frameworks that accept every extension: requesting
    [ML_NNFW_TYPE_NNFW], or [ML_NNFW_TYPE_SNAP] in a build for Android, for
    paths that all hold a dot and that the detection does not resolve to the
    framework succeeds if the framework is available and fails with
    [ML_ERROR_NOT_SUPPORTED] if it is not; for [ML_NNFW_TYPE_NNFW] the first
    path may be a directory. *)
Theorem framework_any_extension (models : list (nullable string)) is_dir log0
    (nnfw : ml_nnfw_type_e) :
  __ml_validate_model_file (Some models) false = (ML_ERROR_NONE, is_dir, log0) →
  nnfw = ML_NNFW_TYPE_NNFW ∨
  nnfw = ML_NNFW_TYPE_SNAP ∧ defined__ANDROID__ = true ∧ is_dir = false →
  detected_framework models ≠ nnfw →
  Forall (λ m, ∃ m', m = Some m' ∧ is_Some (strrchr m' ".")) models →
  ∃ log, _ml_validate_model_file (Some models) (Some nnfw)
         = Some (if _ml_nnfw_is_available nnfw ML_NNFW_HW_ANY
                 then ML_ERROR_NONE else ML_ERROR_NOT_SUPPORTED,
                 Some nnfw, log).
Proof.
  intros Hcheck Hnnfw Hdet Hexts.
  destruct (validate_file_ext_all models [] Hexts) as (exts & Hloop & _).
  simpl in Hloop.
  assert (nnfw ≠ ML_NNFW_TYPE_ANY ∧ (is_dir = true → nnfw = ML_NNFW_TYPE_NNFW) ∧
          validate_extension nnfw exts = Some (ML_ERROR_NONE, []))
    as (Hany & Hdir & Hext).
  { destruct Hnnfw as [->|(-> & Hand & ->)]; [done|].
    split; [done|]. split; [done|]. simpl. by rewrite Hand. }
  destruct (validate_mismatch models is_dir log0 nnfw exts
              ML_ERROR_NONE [] Hcheck Hany) as [log Hcall];
    [done|done|done|done|].
  rewrite validate_done_passed in Hcall. eauto.
Qed.

(** X18. The extensions of Arm NN: when [ML_NNFW_TYPE_ARMNN] is requested
    for files that the detection does not resolve to it, a first path whose
    lowered extension is none of [.caffemodel], [.tflite], [.pb],
    [.prototxt] makes the call fail with [ML_ERROR_INVALID_PARAMETER]; with
    a first path that has one of the four, every path holding a dot, the
    call succeeds if the framework is available and fails with
    [ML_ERROR_NOT_SUPPORTED] if it is not. *)
Theorem armnn_extension_gate (models : list (nullable string)) log0 :
  let call := _ml_validate_model_file (Some models) (Some ML_NNFW_TYPE_ARMNN) in
  let accepted := [".caffemodel"; ".tflite"; ".pb"; ".prototxt"] in
  __ml_validate_model_file (Some models) false = (ML_ERROR_NONE, false, log0) →
  detected_framework models ≠ ML_NNFW_TYPE_ARMNN →
  ((∀ model0 pos, models !! 0%nat = Some (Some model0) →
                  strrchr model0 "." = Some pos →
                  g_ascii_strdown pos ∉ accepted) →
   ∃ log, call = Some (ML_ERROR_INVALID_PARAMETER, Some ML_NNFW_TYPE_ARMNN, log)) ∧
  ((∃ model0 pos, models !! 0%nat = Some (Some model0) ∧
                  strrchr model0 "." = Some pos ∧
                  g_ascii_strdown pos ∈ accepted) →
   Forall (λ m, ∃ m', m = Some m' ∧ is_Some (strrchr m' ".")) models →
   ∃ log, call = Some (if _ml_nnfw_is_available ML_NNFW_TYPE_ARMNN ML_NNFW_HW_ANY
                       then ML_ERROR_NONE else ML_ERROR_NOT_SUPPORTED,
                       Some ML_NNFW_TYPE_ARMNN, log)).
Proof.
  intros call accepted Hcheck Hdet.
  assert (models ≠ []) as Hmodels.
  { intros ->. unfold __ml_validate_model_file in Hcheck. discriminate. }
  split.
  - intros Hext.
    pose proof (existence_checks_files _ _ Hcheck) as Hnames.
    destruct (validate_file_ext_defined models [] Hnames) as [[exts|m] Hloop].
    + destruct (validate_file_ext_first _ _ Hloop Hmodels)
        as (model0 & pos & Hfirst & Hpos & Hext0).
      specialize (Hext model0 pos Hfirst Hpos). unfold accepted in Hext.
      apply not_elem_of_cons in Hext as [H1 Hext].
      apply not_elem_of_cons in Hext as [H2 Hext].
      apply not_elem_of_cons in Hext as [H3 Hext].
      apply not_elem_of_cons in Hext as [H4 _].
      destruct (validate_mismatch models false log0 ML_NNFW_TYPE_ARMNN exts
                  ML_ERROR_INVALID_PARAMETER [] Hcheck) as [log Hcall];
        [done|done|done|done| |].
      { simpl. rewrite Hext0. simpl. unfold g_str_equal.
        apply String.eqb_neq in H1, H2, H3, H4. by rewrite H1, H2, H3, H4. }
      rewrite validate_done_failed in Hcall by done. eauto.
    + destruct (validate_reaches_done _ _ _ ML_NNFW_TYPE_ARMNN
                  ML_ERROR_INVALID_PARAMETER ML_NNFW_TYPE_ARMNN
                  (_ml_loge "The given model [%s] has invalid extension." [m]) Hcheck)
        as [log Hcall].
      { unfold validate_decide. rewrite decide_False by done. simpl.
        rewrite decide_False by done. by rewrite Hloop. }
      rewrite validate_done_failed in Hcall by done. eauto.
  - intros (model0 & pos & Hfirst & Hpos & Hin) Hexts.
    destruct (validate_file_ext_all models [] Hexts) as (exts & Hloop & _).
    simpl in Hloop.
    destruct (validate_file_ext_first _ _ Hloop Hmodels)
      as (model0' & pos' & Hfirst' & Hpos' & Hext0).
    rewrite Hfirst in Hfirst'. injection Hfirst' as <-.
    rewrite Hpos in Hpos'. injection Hpos' as <-.
    destruct (validate_mismatch models false log0 ML_NNFW_TYPE_ARMNN exts
                ML_ERROR_NONE [] Hcheck) as [log Hcall];
      [done|done|done|done| |].
    { simpl. rewrite Hext0. simpl. unfold g_str_equal, accepted in *.
      repeat (apply elem_of_cons in Hin as [->|Hin]; [done|]).
      by apply elem_of_nil in Hin. }
    rewrite validate_done_passed in Hcall. eauto.
Qed.

End validator_more.

(** The validation at concrete calls. *)

Section validator_more_examples.
Import CStr Registry Validator.
Local Open Scope string_scope.
Local Open Scope list_scope.

(** A directory handed to NNFW together with a null path: the existence
    checks stop at the directory, and the loop over the extensions hands the
    null pointer to [strrchr]. *)
Example validate_null_path_after_directory :
  @_ml_validate_model_file
    (custom_environment ["model.d"] [] (λ _, NULL) [ML_NNFW_TYPE_NNFW] false)
    (Some [Some "model.d"; NULL]) (Some ML_NNFW_TYPE_NNFW) = None.
Proof. reflexivity. Qed.

(** A directory that the detection resolves to TensorFlow Lite is accepted
    under [ML_NNFW_TYPE_ANY], and refused when the framework found is asked
    for by name. *)
Example validate_directory_detected :
  let env := custom_environment ["model.d"] [] (λ _, Some "tensorflow-lite")
               [ML_NNFW_TYPE_TENSORFLOW_LITE] false in
  (@_ml_validate_model_file env (Some [Some "model.d"]) (Some ML_NNFW_TYPE_ANY)
   = Some (ML_ERROR_NONE, Some ML_NNFW_TYPE_TENSORFLOW_LITE,
           _ml_logi "The given model is supposed a %s model." ["tensorflow-lite"])) ∧
  (@_ml_validate_model_file env (Some [Some "model.d"])
     (Some ML_NNFW_TYPE_TENSORFLOW_LITE)
   = Some (ML_ERROR_INVALID_PARAMETER, Some ML_NNFW_TYPE_TENSORFLOW_LITE,
           _ml_loge "The given model is directory, check model and framework." []
           ++ _ml_loge "The given model file is invalid." [])).
Proof. split; reflexivity. Qed.

Lemma existence_checks_spec_witness :
  (@__ml_validate_model_file (example_environment [])
     (Some [Some "model.tflite"; Some "missing.tflite"]) false).1.1
  = ML_ERROR_INVALID_PARAMETER.
Proof.
  apply (proj1 (proj2 (@existence_checks_spec (example_environment [])
                         (Some [Some "model.tflite"; Some "missing.tflite"]) false))).
  discriminate.
Defined.

Lemma validation_defined_witness :
  is_Some (@_ml_validate_model_file (example_environment [])
             (Some [Some "model_dir"; Some "weights"]) (Some ML_NNFW_TYPE_NNFW)).
Proof.
  apply (@validation_defined (example_environment [])).
  intros model0 rest [= <- <-] _. repeat constructor; by eexists.
Defined.

Lemma validation_outcome_witness :
  ML_ERROR_INVALID_PARAMETER
    ∈ [ML_ERROR_NONE; ML_ERROR_INVALID_PARAMETER; ML_ERROR_NOT_SUPPORTED] ∧
  (∃ status log,
     @_ml_validate_model_file (example_environment [])
       (Some [Some "model.tflite"]) (Some ML_NNFW_TYPE_ANY)
     = Some (status, Some ML_NNFW_TYPE_TENSORFLOW_LITE, log) ∧
     status = ML_ERROR_NOT_SUPPORTED).
Proof.
  split.
  - apply (proj1 (proj1 (@validation_outcome (example_environment [])
                           (Some [Some "model.onnx"]) ML_NNFW_TYPE_VD_AIFW)
                    ML_ERROR_INVALID_PARAMETER (Some ML_NNFW_TYPE_VD_AIFW)
                    (_ml_loge "The given model file is invalid." [])
                    eq_refl)).
  - destruct (proj2 (@validation_outcome (example_environment [])
                       (Some [Some "model.tflite"]) ML_NNFW_TYPE_ANY)
                eq_refl [Some "model.tflite"] eq_refl eq_refl)
      as (status & log & Hcall & _ & Hstatus).
    exists status, log. split; [exact Hcall|].
    apply Hstatus. vm_compute. discriminate.
Defined.

Lemma validation_success_witness :
  ∃ resolved,
    Some ML_NNFW_TYPE_TENSORFLOW_LITE = Some resolved ∧
    resolved ≠ ML_NNFW_TYPE_ANY ∧
    @_ml_nnfw_is_available (example_environment [ML_NNFW_TYPE_TENSORFLOW_LITE])
      resolved ML_NNFW_HW_ANY = true.
Proof.
  apply (@validation_success (example_environment [ML_NNFW_TYPE_TENSORFLOW_LITE])
           (Some [Some "model.tflite"]) ML_NNFW_TYPE_ANY
           (Some ML_NNFW_TYPE_TENSORFLOW_LITE)
           (_ml_logi "The given model is supposed a %s model." ["tensorflow-lite"])).
  reflexivity.
Defined.

Lemma validation_repeats_witness :
  ∃ log, @_ml_validate_model_file (example_environment [ML_NNFW_TYPE_TENSORFLOW_LITE])
           (Some [Some "model.tflite"]) (Some ML_NNFW_TYPE_TENSORFLOW_LITE)
         = Some (ML_ERROR_NONE, Some ML_NNFW_TYPE_TENSORFLOW_LITE, log).
Proof.
  apply (@validation_repeats (example_environment [ML_NNFW_TYPE_TENSORFLOW_LITE])
           (Some [Some "model.tflite"]) ML_NNFW_TYPE_TENSORFLOW_LITE
           (_ml_logi "The given model is supposed a %s model." ["tensorflow-lite"])).
  - reflexivity.
  - intros model0 rest [= <- <-] Hdir. vm_compute in Hdir. discriminate.
Defined.

Lemma matching_detection_witness :
  ∃ log, @_ml_validate_model_file (example_environment [])
           (Some [Some "model.tflite"; Some "weights"])
           (Some ML_NNFW_TYPE_TENSORFLOW_LITE)
         = Some (ML_ERROR_NOT_SUPPORTED, Some ML_NNFW_TYPE_TENSORFLOW_LITE, log).
Proof.
  apply (@matching_detection (example_environment [])
           [Some "model.tflite"; Some "weights"] false []
           ML_NNFW_TYPE_TENSORFLOW_LITE).
  - reflexivity.
  - discriminate.
  - discriminate.
  - reflexivity.
Defined.

Lemma missing_extension_witness :
  ∃ log, @_ml_validate_model_file (example_environment [ML_NNFW_TYPE_NNFW])
           (Some [Some "model.bin"; Some "weights"]) (Some ML_NNFW_TYPE_NNFW)
         = Some (ML_ERROR_INVALID_PARAMETER, Some ML_NNFW_TYPE_NNFW, log).
Proof.
  apply (@missing_extension (example_environment [ML_NNFW_TYPE_NNFW])
           [Some "model.bin"; Some "weights"] false [] ML_NNFW_TYPE_NNFW "weights").
  - reflexivity.
  - discriminate.
  - vm_compute. discriminate.
  - repeat constructor; by eexists.
  - apply (bool_decide_unpack _). vm_compute. exact I.
  - reflexivity.
Defined.

Lemma framework_without_rule_witness :
  ∃ log, @_ml_validate_model_file (example_environment [ML_NNFW_TYPE_PYTORCH])
           (Some [Some "model.onnx"]) (Some ML_NNFW_TYPE_PYTORCH)
         = Some (ML_ERROR_INVALID_PARAMETER, Some ML_NNFW_TYPE_PYTORCH, log).
Proof.
  apply (@framework_without_rule (example_environment [ML_NNFW_TYPE_PYTORCH])
           [Some "model.onnx"] false [] ML_NNFW_TYPE_PYTORCH).
  - reflexivity.
  - apply (bool_decide_unpack _). vm_compute. exact I.
  - vm_compute. discriminate.
  - repeat constructor; by eexists.
Defined.

Lemma framework_refused_witness :
  ∃ log, @_ml_validate_model_file (example_environment [ML_NNFW_TYPE_EDGE_TPU])
           (Some [Some "model.tflite"]) (Some ML_NNFW_TYPE_EDGE_TPU)
         = Some (ML_ERROR_NOT_SUPPORTED, Some ML_NNFW_TYPE_EDGE_TPU, log).
Proof.
  apply (@framework_refused (example_environment [ML_NNFW_TYPE_EDGE_TPU])
           [Some "model.tflite"] [] ML_NNFW_TYPE_EDGE_TPU).
  - reflexivity.
  - left. apply (bool_decide_unpack _). vm_compute. exact I.
  - vm_compute. discriminate.
  - repeat constructor. exists "model.tflite". split; [reflexivity|]. by eexists.
Defined.

Lemma framework_any_extension_witness :
  ∃ log, @_ml_validate_model_file
           (custom_environment ["model.d"] [] (λ _, NULL) [ML_NNFW_TYPE_NNFW] false)
           (Some [Some "model.d"]) (Some ML_NNFW_TYPE_NNFW)
         = Some (ML_ERROR_NONE, Some ML_NNFW_TYPE_NNFW, log).
Proof.
  apply (@framework_any_extension
           (custom_environment ["model.d"] [] (λ _, NULL) [ML_NNFW_TYPE_NNFW] false)
           [Some "model.d"] true [] ML_NNFW_TYPE_NNFW).
  - reflexivity.
  - left. reflexivity.
  - vm_compute. discriminate.
  - repeat constructor. exists "model.d". split; [reflexivity|]. by eexists.
Defined.

Lemma armnn_extension_gate_witness :
  (∃ log, @_ml_validate_model_file (example_environment [ML_NNFW_TYPE_ARMNN])
            (Some [Some "model.bin"]) (Some ML_NNFW_TYPE_ARMNN)
          = Some (ML_ERROR_INVALID_PARAMETER, Some ML_NNFW_TYPE_ARMNN, log)) ∧
  (∃ log, @_ml_validate_model_file (example_environment [ML_NNFW_TYPE_ARMNN])
            (Some [Some "model.tflite"]) (Some ML_NNFW_TYPE_ARMNN)
          = Some (ML_ERROR_NONE, Some ML_NNFW_TYPE_ARMNN, log)).
Proof.
  split.
  - apply (proj1 (@armnn_extension_gate (example_environment [ML_NNFW_TYPE_ARMNN])
                    [Some "model.bin"] []
                    eq_refl ltac:(vm_compute; discriminate))).
    intros model0 pos [= <-] [= <-]. apply (bool_decide_unpack _).
    vm_compute. exact I.
  - apply (proj2 (@armnn_extension_gate (example_environment [ML_NNFW_TYPE_ARMNN])
                    [Some "model.tflite"] []
                    eq_refl ltac:(vm_compute; discriminate))).
    + exists "model.tflite", ".tflite". repeat split.
      apply (bool_decide_unpack _). vm_compute. exact I.
    + repeat constructor. exists "model.tflite". split; [reflexivity|]. by eexists.
Defined.

End validator_more_examples.

(** ** The gate, beyond the claims *)

Section gate_more.
Import CStr Gate.
Local Open Scope string_scope.
Local Open Scope Z_scope.
Local Open Scope list_scope.
Context {env : environment}.

(** The call once the feature check and the initialisation have passed. *)
Lemma availability_call (element_name : string) (available : bool) (st : statics) :
  feature_state = ML_ERROR_NONE → gst_init_check.1 = true →
  ml_check_element_availability (Some element_name) (Some available) st
  = match gst_element_factory_find element_name with
    | Some factory =>
        let r := _ml_check_plugin_availability
                   (gst_plugin_feature_get_plugin_name factory)
                   (Some element_name) st in
        (ML_ERROR_NONE,
         if decide (r.1.1 = ML_ERROR_NONE) then Some true else Some false,
         r.1.2, r.2)
    | NULL => (ML_ERROR_NONE, Some false, st, [])
    end.
Proof.
  intros Hfeature Hinit. unfold ml_check_element_availability.
  rewrite decide_False by (intros Hne; by apply Hne).
  unfold _ml_initialize_gstreamer.
  destruct gst_init_check as [ok err]. simpl in Hinit. subst ok. simpl.
  destruct (gst_element_factory_find element_name) as [factory|]; [|done].
  by destruct (_ml_check_plugin_availability _ _ st) as [[status st'] log].
Qed.


(** X20. Absence is not an error: for an element that the registry does
    not know, or whose factory names no plugin, the call succeeds with
    [*available] set to [false], and the list of restricted elements is not
    loaded by it. *)
Theorem availability_of_unknown_element (element_name : string)
    (available : bool) (st : statics) :
  feature_state = ML_ERROR_NONE → gst_init_check.1 = true →
  gst_element_factory_find element_name = NULL ∨
  (∃ factory, gst_element_factory_find element_name = Some factory ∧
              gst_plugin_feature_get_plugin_name factory = NULL) →
  ∃ log, ml_check_element_availability (Some element_name) (Some available) st
         = (ML_ERROR_NONE, Some false, st, log).
Proof.
  intros Hfeature Hinit Hfind. rewrite availability_call by done.
  destruct Hfind as [->|(factory & -> & Hplugin)]; [by eexists|].
  rewrite Hplugin. simpl. by eexists.
Qed.

(** X21. First-party elements are never restricted: an element whose name
    starts with [tensor_] and whose plugin name starts with [nnstreamer] is
    available, whatever the configuration says and whatever the statics
    hold. *)
Theorem first_party_always_available (element_name : string)
    (available : bool) (st : statics) (factory : GstElementFactory)
    (plugin_name : string) :
  feature_state = ML_ERROR_NONE → gst_init_check.1 = true →
  gst_element_factory_find element_name = Some factory →
  gst_plugin_feature_get_plugin_name factory = Some plugin_name →
  g_str_has_prefix plugin_name "nnstreamer" = true →
  g_str_has_prefix element_name "tensor_" = true →
  ∃ st' log, ml_check_element_availability (Some element_name) (Some available) st
             = (ML_ERROR_NONE, Some true, st', log).
Proof.
  intros Hfeature Hinit Hfind Hplugin Hp He. rewrite availability_call by done.
  rewrite Hfind, Hplugin. unfold _ml_check_plugin_availability.
  rewrite Hp, He. simpl. by do 2 eexists.
Qed.

(** X22. An element of the list is available: with the restriction enabled
    and an element name that is one of the tokens of [restricted_elements],
    an element that exists is available, whatever plugin owns it. *)
Theorem listed_element_available (element_name : string)
    (available : bool) (st : statics) (factory : GstElementFactory)
    (plugin_name elements : string) :
  feature_state = ML_ERROR_NONE → gst_init_check.1 = true →
  gst_element_factory_find element_name = Some factory →
  gst_plugin_feature_get_plugin_name factory = Some plugin_name →
  nnsconf_get_custom_value_bool "element-restriction"
    "enable_element_restriction" false = true →
  nnsconf_get_custom_value_string "element-restriction"
    "restricted_elements" = Some elements →
  element_name ∈ g_strsplit_set elements " ,;" →
  statics_reachable st →
  ∃ st' log, ml_check_element_availability (Some element_name) (Some available) st
             = (ML_ERROR_NONE, Some true, st', log).
Proof.
  intros Hfeature Hinit Hfind Hplugin Henabled Hlist Hin Hst.
  rewrite availability_call by done. rewrite Hfind, Hplugin. cbv zeta.
  assert ((_ml_check_plugin_availability (Some plugin_name) (Some element_name) st).1.1
          = ML_ERROR_NONE) as ->.
  { rewrite (check_plugin_availability_status plugin_name element_name st Hst).
    unfold statics_loaded. rewrite Henabled, Hlist. cbn [restricted_elements].
    pose proof (find_key_strv_from_present 0 _ _ Hin) as Hfound.
    unfold find_key_strv.
    destruct (Z.ltb_spec (find_key_strv_from 0
                (strv (g_strsplit_set elements " ,;")) element_name) 0); [lia|].
    by destruct (_ && _). }
  rewrite decide_True by done. by do 2 eexists.
Qed.

(** X23. Without the restriction every element is available: when
    [enable_element_restriction] is not set, an element that exists and
    whose factory names a plugin is available, whatever
    [restricted_elements] holds. *)
Theorem unrestricted_element_available (element_name : string)
    (available : bool) (st : statics) (factory : GstElementFactory)
    (plugin_name : string) :
  feature_state = ML_ERROR_NONE → gst_init_check.1 = true →
  gst_element_factory_find element_name = Some factory →
  gst_plugin_feature_get_plugin_name factory = Some plugin_name →
  nnsconf_get_custom_value_bool "element-restriction"
    "enable_element_restriction" false = false →
  statics_reachable st →
  ∃ st' log, ml_check_element_availability (Some element_name) (Some available) st
             = (ML_ERROR_NONE, Some true, st', log).
Proof.
  intros Hfeature Hinit Hfind Hplugin Hdisabled Hst.
  rewrite availability_call by done. rewrite Hfind, Hplugin. cbv zeta.
  assert ((_ml_check_plugin_availability (Some plugin_name) (Some element_name) st).1.1
          = ML_ERROR_NONE) as ->.
  { rewrite (check_plugin_availability_status plugin_name element_name st Hst).
    unfold statics_loaded. rewrite Hdisabled. cbn [restricted_elements].
    by destruct (_ && _). }
  rewrite decide_True by done. by do 2 eexists.
Qed.

(** X24. One process, one answer: the statics stay among the values a
    process can reach, and what a call answers for an element (status and
    [*available]) is what the first call of the process would have
    answered; earlier calls, for this or for other elements, change
    nothing. *)
Theorem availability_independent_of_history (element_name : nullable string)
    (available : nullable bool) (st : statics) :
  statics_reachable st →
  (ml_check_element_availability element_name available st).1.1
  = (ml_check_element_availability element_name available statics_init).1.1 ∧
  statics_reachable (ml_check_element_availability element_name available st).1.2.
Proof.
  intros Hst.
  assert (statics_reachable statics_init) as Hinit by (by left).
  unfold ml_check_element_availability.
  destruct (decide (feature_state ≠ ML_ERROR_NONE)); [done|].
  destruct element_name as [element_name|]; [|done].
  destruct available as [available|]; [|done].
  destruct _ml_initialize_gstreamer as [status log0].
  destruct (decide (status ≠ ML_ERROR_NONE)); [done|].
  destruct (gst_element_factory_find element_name) as [factory|]; [|done].
  destruct (gst_plugin_feature_get_plugin_name factory) as [plugin_name|].
  - pose proof (check_plugin_availability_status plugin_name element_name st Hst) as H1.
    pose proof (check_plugin_availability_status plugin_name element_name _ Hinit) as H2.
    pose proof (check_plugin_availability_statics plugin_name element_name st Hst) as H3.
    destruct (_ml_check_plugin_availability _ _ st) as [[s1 st1] log1].
    destruct (_ml_check_plugin_availability _ _ statics_init) as [[s2 st2] log2].
    simpl in *. subst. split; [done|by right].
  - simpl. done.
Qed.

End gate_more.

(** X25. The list is read once: after it has been loaded, the check does
    not consult the configuration again.  Whatever two environments say
    about the restriction, with loaded statics the check returns the same
    status in both and leaves the statics as they are. *)
Theorem restriction_list_loaded_once (env1 env2 : Gate.environment)
    (plugin_name element_name : nullable string) (st : Gate.statics) :
  Gate.list_loaded st = true →
  @Gate._ml_check_plugin_availability env1 plugin_name element_name st
  = @Gate._ml_check_plugin_availability env2 plugin_name element_name st ∧
  (@Gate._ml_check_plugin_availability env1 plugin_name element_name st).1.2 = st.
Proof.
  intros Hloaded. unfold Gate._ml_check_plugin_availability.
  destruct plugin_name as [plugin_name|], element_name as [element_name|];
    try done.
  rewrite Hloaded. simpl. split; [done|]. repeat case_match; done.
Qed.

(** The gate at concrete calls. *)

Section gate_more_examples.
Import CStr Gate.
Local Open Scope string_scope.
Local Open Scope list_scope.


Lemma availability_of_unknown_element_witness :
  ∃ log, @ml_check_element_availability (example_environment true (Some "appsrc"))
           (Some "no_such_element") (Some true) statics_init
         = (ML_ERROR_NONE, Some false, statics_init, log).
Proof.
  apply (@availability_of_unknown_element (example_environment true (Some "appsrc"))
           "no_such_element" true statics_init).
  - reflexivity.
  - reflexivity.
  - left. reflexivity.
Defined.

Lemma first_party_always_available_witness :
  ∃ st' log,
    @ml_check_element_availability (example_environment true (Some "appsrc"))
      (Some "tensor_filter") (Some false)
      {| list_loaded := true; restricted_elements := Some [NULL] |}
    = (ML_ERROR_NONE, Some true, st', log).
Proof.
  apply (@first_party_always_available (example_environment true (Some "appsrc"))
           "tensor_filter" false
           {| list_loaded := true; restricted_elements := Some [NULL] |}
           {| gst_plugin_feature_get_plugin_name := Some "nnstreamer" |}
           "nnstreamer").
  - reflexivity.
  - reflexivity.
  - reflexivity.
  - reflexivity.
  - reflexivity.
  - reflexivity.
Defined.

Lemma listed_element_available_witness :
  ∃ st' log,
    @ml_check_element_availability
      (example_environment true (Some "appsrc;third_party_x appsink"))
      (Some "third_party_x") (Some false) statics_init
    = (ML_ERROR_NONE, Some true, st', log).
Proof.
  apply (@listed_element_available
           (example_environment true (Some "appsrc;third_party_x appsink"))
           "third_party_x" false statics_init
           {| gst_plugin_feature_get_plugin_name := Some "thirdparty" |}
           "thirdparty" "appsrc;third_party_x appsink").
  - reflexivity.
  - reflexivity.
  - reflexivity.
  - reflexivity.
  - reflexivity.
  - reflexivity.
  - apply (bool_decide_unpack _). vm_compute. exact I.
  - left. reflexivity.
Defined.

Lemma unrestricted_element_available_witness :
  ∃ st' log,
    @ml_check_element_availability (example_environment false (Some "appsrc"))
      (Some "third_party_x") (Some false) statics_init
    = (ML_ERROR_NONE, Some true, st', log).
Proof.
  apply (@unrestricted_element_available
           (example_environment false (Some "appsrc"))
           "third_party_x" false statics_init
           {| gst_plugin_feature_get_plugin_name := Some "thirdparty" |}
           "thirdparty").
  - reflexivity.
  - reflexivity.
  - reflexivity.
  - reflexivity.
  - reflexivity.
  - left. reflexivity.
Defined.

Lemma availability_independent_of_history_witness :
  (@ml_check_element_availability (example_environment true (Some "appsrc"))
     (Some "third_party_x") (Some true)
     (@statics_loaded (example_environment true (Some "appsrc")))).1.1
  = (ML_ERROR_NONE, Some false).
Proof.
  apply (proj1 (@availability_independent_of_history
                  (example_environment true (Some "appsrc"))
                  (Some "third_party_x") (Some true)
                  (@statics_loaded (example_environment true (Some "appsrc")))
                  (or_intror eq_refl))).
Defined.

(** The list was loaded while it allowed [appsrc] only; a configuration
    that no longer restricts anything is not seen. *)
Lemma restriction_list_loaded_once_witness :
  (@_ml_check_plugin_availability (example_environment false NULL)
     (Some "thirdparty") (Some "third_party_x")
     {| list_loaded := true; restricted_elements := Some [Some "appsrc"; NULL] |}).1.1
  = ML_ERROR_NOT_SUPPORTED.
Proof.
  rewrite <- (proj1 (restriction_list_loaded_once
                       (example_environment true (Some "appsrc"))
                       (example_environment false NULL)
                       (Some "thirdparty") (Some "third_party_x")
                       {| list_loaded := true;
                          restricted_elements := Some [Some "appsrc"; NULL] |}
                       eq_refl)).
  reflexivity.
Defined.

End gate_more_examples.
